(** * PaddleViT: checkpoint conversion and truncated-normal initialisation

    A shallow embedding of
    - [image_classification/SwinTransformer/load_pytorch_weights.py]
      (the name mapping, the missing-key report and the copy loop of
      [convert]), and
    - [semantic_segmentation/src/models/backbones/trans2seg_transformer.py]
      ([_no_grad_trunc_normal_], [trunc_normal_] and the initialisers that
      call them),
    followed by the properties proved about them. *)

From Stdlib Require Import ZArith String Ascii List Bool Lia Floats.
From stdpp Require Import base tactics option list strings pretty functions.

Local Open Scope string_scope.
Local Open Scope nat_scope.
Local Open Scope list_scope.

(** ** Python values used by both files *)

(** [s.endswith(suffix)]: some tail of [s] is [suffix]. *)
Fixpoint endswith (s suffix : string) : bool :=
  String.eqb s suffix ||
  match s with
  | EmptyString => false
  | String _ s' => endswith s' suffix
  end.

(** [s.startswith(p)]. *)
Definition startswith (s p : string) : bool := String.prefix p s.

(** [s[:-k]] for a positive literal [k]: the string without its last [k]
    characters (empty when [s] is shorter than [k]). *)
Definition drop_last (k : nat) (s : string) : string :=
  substring 0 (String.length s - k) s.

(** [f'{n}'] for a non-negative [int]. *)
Definition fmt (n : nat) : string := pretty n.

(** [range(d)] for a Python [int] [d]: empty when [d <= 0]. *)
Definition range (d : Z) : list nat := seq 0 (Z.to_nat d).

(** A Python [dict] with string keys: insertion-ordered, one binding per
    key.  [dict_set] is [d[k] = v], [dict_get] is the lookup behind [d[k]],
    [dict_mem] is [k in d] and [dict_keys] the iteration order of
    [for k in d]. *)
Section PyDict.
Context {V : Type}.

Definition dict := list (string * V).

Fixpoint dict_get (d : dict) (k : string) : option V :=
  match d with
  | [] => None
  | (k', v) :: d' => if String.eqb k' k then Some v else dict_get d' k
  end.

Fixpoint dict_set (d : dict) (k : string) (v : V) : dict :=
  match d with
  | [] => [(k, v)]
  | (k', v') :: d' =>
      if String.eqb k' k then (k', v) :: d' else (k', v') :: dict_set d' k v
  end.

Definition dict_mem (d : dict) (k : string) : bool :=
  match dict_get d k with Some _ => true | None => false end.

Definition dict_keys (d : dict) : list string := map fst d.

(** [for name, param in items: d[name] = param]. *)
Definition dict_update (d : dict) (items : list (string * V)) : dict :=
  fold_left (fun d kv => dict_set d (fst kv) (snd kv)) items d.
End PyDict.
Arguments dict : clear implicits.

(** [key in keys] for a Python list of strings. *)
Definition list_mem (key : string) (keys : list string) : bool :=
  existsb (String.eqb key) keys.

(** Object identities (references to tensor objects). *)
Definition loc := nat.

(** A dense array as numpy and both frameworks hold it: the shape and the
    elements in row-major order. *)
Section NDArray.
Context {elt : Type}.

Record ndarray := { shape : list nat; data : list elt }.

Definition ndim (a : ndarray) : nat := length (shape a).

Definition numel (shp : list nat) : nat := fold_right Nat.mul 1 shp.

(** Every array numpy builds holds exactly [numel shape] elements. *)
Definition ndarray_wf (a : ndarray) : Prop :=
  length (data a) = numel (shape a).

(** Row-major offset of a multi-index; [None] is numpy's IndexError. *)
Fixpoint ravel (shp idx : list nat) : option nat :=
  match shp, idx with
  | [], [] => Some 0
  | d :: shp', i :: idx' =>
      if i <? d then
        match ravel shp' idx' with
        | Some off => Some (i * numel shp' + off)
        | None => None
        end
      else None
  | _, _ => None
  end.

(** [a[i0, ..., ik]]. *)
Definition item (a : ndarray) (idx : list nat) : option elt :=
  match ravel (shape a) idx with
  | Some off => data a !! off
  | None => None
  end.

(** [value.transpose((1, 0))]: defined on 2-D arrays only (numpy raises
    ValueError, here [None], when the axes do not match the array). *)
Definition transpose_1_0 (a : ndarray) : option ndarray :=
  match shape a with
  | [r; c] =>
      Some {| shape := [c; r];
              data := flat_map (fun j =>
                        flat_map (fun i => option_list (data a !! (i * c + j)))
                                 (seq 0 r))
                        (seq 0 c) |}
  | _ => None
  end.
End NDArray.
Arguments ndarray : clear implicits.

(** ** load_pytorch_weights.py *)

Record config := { STAGE_DEPTHS : list Z }.

(** The seven sub-layer pairs of one block (lines 52-60). *)
Definition layer_mapping (th_b_prefix pp_b_prefix : string)
  : list (string * string) :=
  [ (th_b_prefix +:+ ".norm1", pp_b_prefix +:+ ".norm1");
    (th_b_prefix +:+ ".attn.relative_position_bias_table",
     pp_b_prefix +:+ ".attn.relative_position_bias_table");
    (th_b_prefix +:+ ".attn.qkv", pp_b_prefix +:+ ".attn.qkv");
    (th_b_prefix +:+ ".attn.proj", pp_b_prefix +:+ ".attn.proj");
    (th_b_prefix +:+ ".norm2", pp_b_prefix +:+ ".norm2");
    (th_b_prefix +:+ ".mlp.fc1", pp_b_prefix +:+ ".mlp.fc1");
    (th_b_prefix +:+ ".mlp.fc2", pp_b_prefix +:+ ".mlp.fc2") ].

(** The two pairs appended after the blocks of a stage (lines 64-66). *)
Definition downsample_mapping (stage_idx : nat) : list (string * string) :=
  [ ("layers." +:+ fmt stage_idx +:+ ".downsample.reduction.weight",
     "stages." +:+ fmt stage_idx +:+ ".downsample.reduction.weight");
    ("layers." +:+ fmt stage_idx +:+ ".downsample.norm",
     "stages." +:+ fmt stage_idx +:+ ".downsample.norm") ].

(** Body of [for block_idx in range(depths[stage_idx])] (lines 50-61). *)
Definition block_step (th_s_prefix pp_s_prefix : string)
    (mapping : list (string * string)) (block_idx : nat)
  : list (string * string) :=
  let th_b_prefix := th_s_prefix +:+ "." +:+ fmt block_idx in
  let pp_b_prefix := pp_s_prefix +:+ "." +:+ fmt block_idx in
  mapping ++ layer_mapping th_b_prefix pp_b_prefix.

(** Body of [for stage_idx in range(num_stages)] (lines 47-66).  The index
    [depths[stage_idx]] is always in range there. *)
Definition stage_step (depths : list Z) (num_stages : nat)
    (mapping : list (string * string)) (stage_idx : nat)
  : list (string * string) :=
  let pp_s_prefix := "stages." +:+ fmt stage_idx +:+ ".blocks" in
  let th_s_prefix := "layers." +:+ fmt stage_idx +:+ ".blocks" in
  let mapping :=
    fold_left (block_step th_s_prefix pp_s_prefix)
              (range (nth stage_idx depths 0%Z)) mapping in
  if (Z.of_nat stage_idx <? Z.of_nat num_stages - 1)%Z
  then mapping ++ downsample_mapping stage_idx
  else mapping.

Definition torch_to_paddle_mapping (model_name : string) (cfg : config)
  : list (string * string) :=
  let mapping :=
    [ ("patch_embed.proj", "patch_embedding.patch_embed");
      ("patch_embed.norm", "patch_embedding.norm") ] in
  let depths := STAGE_DEPTHS cfg in
  let num_stages := length depths in
  let mapping :=
    fold_left (stage_step depths num_stages) (seq 0 num_stages) mapping in
  mapping ++ [ ("norm", "norm"); ("head", "fc") ].


(** A torch tensor object: whether its class is [torch.nn.parameter.Parameter]
    and the storage its numpy view shares. *)
Record torch_tensor := { is_Parameter : bool; th_storage : loc }.

(** What [named_parameters()] and [named_buffers()] yield for the two
    models; a paddle tensor object is known by its identity. *)
Record torch_model := {
  th_named_parameters : list (string * torch_tensor);
  th_named_buffers : list (string * torch_tensor) }.

Record paddle_model := {
  pd_named_parameters : list (string * loc);
  pd_named_buffers : list (string * loc) }.

(** Lines written by [print]. *)
Inductive out_line :=
  | SetLine (th_name : string) (th_shape : list nat)
            (pd_name : string) (pd_shape : list nat)
  | TextLine (s : string)
  | KeysLine (keys : list string).

(** The local dictionaries of [convert], the contents of the torch and of
    the paddle tensor objects, and standard output. *)
Record state (elt : Type) := {
  th_params : dict torch_tensor;
  pd_params : dict loc;
  th_heap : loc -> ndarray elt;
  pd_heap : loc -> ndarray elt;
  stdout : list out_line }.
Arguments th_params {elt} _.
Arguments pd_params {elt} _.
Arguments th_heap {elt} _.
Arguments pd_heap {elt} _.
Arguments stdout {elt} _.

Inductive exn :=
  | KeyError (key : string)
  | IndexError
  | ValueError
  | ZeroDivisionError
  | NumpyError
  | SetValueError.

Inductive outcome (A : Type) :=
  | Ok (a : A)
  | Raise (e : exn).
Arguments Ok {A} _.
Arguments Raise {A} _.

(** Computations over a program state [St]: the state is threaded through
    and survives an exception as it was when the exception was raised. *)
Definition M (St A : Type) : Type := St -> outcome A * St.

Section PyMonad.
Context {St : Type}.

Definition ret {A} (a : A) : M St A := fun st => (Ok a, st).

Definition bind {A B} (m : M St A) (k : A -> M St B) : M St B :=
  fun st =>
    match m st with
    | (Ok a, st') => k a st'
    | (Raise e, st') => (Raise e, st')
    end.

Definition raise {A} (e : exn) : M St A := fun st => (Raise e, st).

Definition gets {A} (f : St -> A) : M St A :=
  fun st => (Ok (f st), st).

Definition modify (f : St -> St) : M St unit :=
  fun st => (Ok tt, f st).

(** [for x in xs: body(x)]. *)
Fixpoint for_each {A} (xs : list A) (body : A -> M St unit) : M St unit :=
  match xs with
  | [] => ret tt
  | x :: xs' => bind (body x) (fun _ => for_each xs' body)
  end.
End PyMonad.

Declare Scope py_scope.
Delimit Scope py_scope with py.
Notation "x <- m ;; k" := (bind m (fun x => k))
  (at level 100, m at next level, k at level 200, right associativity) : py_scope.
Notation "m ;; k" := (bind m (fun _ => k))
  (at level 100, k at level 200, right associativity) : py_scope.

Section Convert.
Context {elt : Type}.

(** The check of the destination framework's [Tensor.set_value] (not part
    of this repository): whether a tensor holding [old] takes [value]. *)
Variable set_value_accepts : ndarray elt -> ndarray elt -> bool.

(** The check of the source framework's [Tensor.numpy] (not part of this
    repository): whether torch hands out the array of the tensor object the
    method is called on.  It refuses a tensor that requires grad and one
    that does not live in host memory. *)
Variable numpy_accepts : torch_tensor -> bool.

Local Open Scope py_scope.

Definition set_th_params (d : dict torch_tensor) (st : state elt) : state elt :=
  {| th_params := d; pd_params := pd_params st; th_heap := th_heap st;
     pd_heap := pd_heap st; stdout := stdout st |}.

Definition set_pd_params (d : dict loc) (st : state elt) : state elt :=
  {| th_params := th_params st; pd_params := d; th_heap := th_heap st;
     pd_heap := pd_heap st; stdout := stdout st |}.

Definition set_pd_heap (h : loc -> ndarray elt) (st : state elt) : state elt :=
  {| th_params := th_params st; pd_params := pd_params st;
     th_heap := th_heap st; pd_heap := h; stdout := stdout st |}.

Definition print (l : out_line) : M (state elt) unit :=
  modify (fun st =>
    {| th_params := th_params st; pd_params := pd_params st;
       th_heap := th_heap st; pd_heap := pd_heap st;
       stdout := stdout st ++ [l] |}).

(** [d[k]]. *)
Definition getitem {V} (d : dict V) (k : string) : M (state elt) V :=
  match dict_get d k with
  | Some v => ret v
  | None => raise (KeyError k)
  end.

(** [xs[i]]. *)
Definition list_getitem {A} (xs : list A) (i : nat) : M (state elt) A :=
  match xs !! i with
  | Some x => ret x
  | None => raise IndexError
  end.

(** [t.shape] of a torch tensor. *)
Definition th_shape_of (t : torch_tensor) : M (state elt) (list nat) :=
  gets (fun st => shape (th_heap st (th_storage t))).

(** [t.data]: a plain tensor object on the storage of [t]. *)
Definition Tensor_data (t : torch_tensor) : torch_tensor :=
  {| is_Parameter := false; th_storage := th_storage t |}.

(** [t.numpy()]: the array held by the tensor, or the exception torch
    raises when it refuses. *)
Definition numpy (t : torch_tensor) : M (state elt) (ndarray elt) :=
  fun st =>
    if numpy_accepts t
    then (Ok (th_heap st (th_storage t)), st)
    else (Raise NumpyError, st).

(** [p.shape] of a paddle tensor. *)
Definition pd_shape_of (p : loc) : M (state elt) (list nat) :=
  gets (fun st => shape (pd_heap st p)).

(** [p.set_value(value)]: the framework either rejects the value or
    stores it as the contents of the same tensor object. *)
Definition Tensor_set_value (p : loc) (value : ndarray elt) : M (state elt) unit :=
  fun st =>
    if set_value_accepts (pd_heap st p) value
    then (Ok tt, set_pd_heap (<[p := value]> (pd_heap st)) st)
    else (Raise SetValueError, st).

(** Lines 76-88. *)
Definition _set_value (th_name pd_name : string) (transpose : bool)
  : M (state elt) unit :=
  th_params_ <- gets th_params ;;
  pd_params_ <- gets pd_params ;;
  th <- getitem th_params_ th_name ;;
  th_shape <- th_shape_of th ;;
  pd <- getitem pd_params_ pd_name ;;
  pd_shape <- pd_shape_of pd ;;
  print (SetLine th_name th_shape pd_name pd_shape) ;;
  th <- getitem th_params_ th_name ;;
  value <- (if is_Parameter th then numpy (Tensor_data th) else numpy th) ;;
  value <- (if (ndim value =? 2) && transpose
            then match transpose_1_0 value with
                 | Some v => ret v
                 | None => raise ValueError
                 end
            else ret value) ;;
  pd <- getitem pd_params_ pd_name ;;
  Tensor_set_value pd value.

(** [zip] applied to the unpacked [mapping], as a list. *)
Definition zip_star (mapping : list (string * string)) : list (list string) :=
  match mapping with
  | [] => []
  | _ => [map fst mapping; map snd mapping]
  end.

(** Body of the loop over the torch keys (lines 114-123). *)
Definition th_key_step (th_keys : list string)
    (missing_keys_th : list string) (key : string) : list string :=
  let missing := false in
  let missing :=
    if negb (list_mem key th_keys) then
      let missing :=
        if endswith key ".weight" then
          if negb (list_mem (drop_last 7 key) th_keys) then true else missing
        else missing in
      let missing :=
        if endswith key ".bias" then
          if negb (list_mem (drop_last 5 key) th_keys) then true else missing
        else missing in
      missing
    else missing in
  if missing then missing_keys_th ++ [key] else missing_keys_th.

(** Body of the loop over the paddle keys (lines 126-136); it appends to
    [missing_keys_th] as the source does. *)
Definition pd_key_step (pd_keys : list string)
    (missing_keys_th : list string) (key : string) : list string :=
  let missing := false in
  let missing :=
    if negb (list_mem key pd_keys) then
      let missing := true in
      let missing :=
        if endswith key ".weight" then
          if list_mem (drop_last 7 key) pd_keys then false else missing
        else missing in
      let missing :=
        if endswith key ".bias" then
          if list_mem (drop_last 5 key) pd_keys then false else missing
        else missing in
      missing
    else missing in
  if missing then missing_keys_th ++ [key] else missing_keys_th.

(** The missing-key report of [convert] (lines 107-144); the result is
    the pair [(missing_keys_th, missing_keys_pd)] that is printed. *)
Definition compute_missing_keys (mapping : list (string * string))
  : M (state elt) (list string * list string) :=
  let missing_keys_th := [] in
  let missing_keys_pd := [] in
  let zip_map := zip_star mapping in
  th_keys <- list_getitem zip_map 0 ;;
  pd_keys <- list_getitem zip_map 1 ;;
  th_params_ <- gets th_params ;;
  pd_params_ <- gets pd_params ;;
  let missing_keys_th :=
    fold_left (th_key_step th_keys) (dict_keys th_params_) missing_keys_th in
  let missing_keys_th :=
    fold_left (pd_key_step pd_keys) (dict_keys pd_params_) missing_keys_th in
  print (TextLine "====================================") ;;
  print (TextLine "missing_keys_pytorch:") ;;
  print (KeysLine missing_keys_th) ;;
  print (TextLine "missing_keys_paddle:") ;;
  print (KeysLine missing_keys_pd) ;;
  print (TextLine "====================================") ;;
  ret (missing_keys_th, missing_keys_pd).

(** Body of [for th_name, pd_name in mapping] (lines 148-161). *)
Definition copy_entry (e : string * string) : M (state elt) unit :=
  let '(th_name, pd_name) := e in
  th_params_ <- gets th_params ;;
  pd_params_ <- gets pd_params ;;
  if dict_mem th_params_ th_name && dict_mem pd_params_ pd_name then
    if endswith th_name "relative_position_bias_table"
    then _set_value th_name pd_name false
    else _set_value th_name pd_name true
  else
    (if dict_mem th_params_ (th_name +:+ ".weight")
        && dict_mem pd_params_ (pd_name +:+ ".weight")
     then
       let th_name_w := th_name +:+ ".weight" in
       let pd_name_w := pd_name +:+ ".weight" in
       _set_value th_name_w pd_name_w true
     else ret tt) ;;
    (if dict_mem th_params_ (th_name +:+ ".bias")
        && dict_mem pd_params_ (pd_name +:+ ".bias")
     then
       let th_name_b := th_name +:+ ".bias" in
       let pd_name_b := pd_name +:+ ".bias" in
       _set_value th_name_b pd_name_b true
     else ret tt).

(** Step 3 of [convert] (lines 147-161). *)
Definition copy_values (mapping : list (string * string)) : M (state elt) unit :=
  for_each mapping copy_entry.

(** Lines 75-163. *)
Definition convert (torch_model_ : torch_model) (paddle_model_ : paddle_model)
    (model_name : string) (cfg : config) : M (state elt) paddle_model :=
  modify (set_pd_params []) ;;
  modify (set_th_params []) ;;
  modify (fun st =>
    set_pd_params (dict_update (pd_params st) (pd_named_parameters paddle_model_)) st) ;;
  modify (fun st =>
    set_th_params (dict_update (th_params st) (th_named_parameters torch_model_)) st) ;;
  modify (fun st =>
    set_pd_params (dict_update (pd_params st) (pd_named_buffers paddle_model_)) st) ;;
  modify (fun st =>
    set_th_params (dict_update (th_params st) (th_named_buffers torch_model_)) st) ;;
  let mapping := torch_to_paddle_mapping model_name cfg in
  _ <- compute_missing_keys mapping ;;
  copy_values mapping ;;
  ret paddle_model_.
End Convert.

(** ** trans2seg_transformer.py *)

(** The paddle runtime as this file uses it: the contents of every tensor
    object, the next free identity, the global random generator, whether
    gradients are recorded, and the warnings issued. *)
Record runtime (elt rng : Type) := {
  tensors : loc -> ndarray elt;
  next_id : loc;
  generator : rng;
  grad_enabled : bool;
  warnings_log : list string }.
Arguments tensors {elt rng} _.
Arguments next_id {elt rng} _.
Arguments generator {elt rng} _.
Arguments grad_enabled {elt rng} _.
Arguments warnings_log {elt rng} _.

Section TruncNormal.
Context {elt rng : Type}.

(** Numeric kernels, outside this repository: [math.erf] on Python floats
    and the element computations of [paddle.uniform], [Tensor.erf],
    [Tensor.multiply], [Tensor.add], [Tensor.clip] and [paddle.to_tensor]. *)
Variable math_erf : float -> float.
Variable uniform_kernel : rng -> list nat -> float -> float -> ndarray elt * rng.
Variable erf_kernel : ndarray elt -> ndarray elt.
Variable multiply_kernel : ndarray elt -> ndarray elt -> ndarray elt.
Variable add_kernel : ndarray elt -> ndarray elt -> ndarray elt.
Variable clip_kernel : float -> float -> ndarray elt -> ndarray elt.
Variable to_tensor_kernel : float -> ndarray elt.

Local Open Scope py_scope.

(** A newly created tensor object holding [v]. *)
Definition new_tensor (v : ndarray elt) : M (runtime elt rng) loc :=
  fun st =>
    (Ok (next_id st),
     {| tensors := <[next_id st := v]> (tensors st);
        next_id := S (next_id st);
        generator := generator st;
        grad_enabled := grad_enabled st;
        warnings_log := warnings_log st |}).

Definition read_tensor (t : loc) : M (runtime elt rng) (ndarray elt) :=
  gets (fun st => tensors st t).

(** [t.shape]. *)
Definition Tensor_shape (t : loc) : M (runtime elt rng) (list nat) :=
  v <- read_tensor t ;; ret (shape v).

(** [paddle.uniform(shape=..., min=..., max=...)]. *)
Definition paddle_uniform (shp : list nat) (min max : float)
  : M (runtime elt rng) loc :=
  fun st =>
    let '(v, g) := uniform_kernel (generator st) shp min max in
    new_tensor v
      {| tensors := tensors st; next_id := next_id st; generator := g;
         grad_enabled := grad_enabled st; warnings_log := warnings_log st |}.

(** [paddle.to_tensor(x)]. *)
Definition paddle_to_tensor (x : float) : M (runtime elt rng) loc :=
  new_tensor (to_tensor_kernel x).

(** [t.erf()], [t.multiply(y)], [t.add(y)], [t.clip(min=..., max=...)]:
    the out-of-place methods, each returning a new tensor.  [clip] refuses
    bounds that are not ordered. *)
Definition Tensor_erf (t : loc) : M (runtime elt rng) loc :=
  v <- read_tensor t ;; new_tensor (erf_kernel v).

Definition Tensor_multiply (t y : loc) : M (runtime elt rng) loc :=
  v <- read_tensor t ;; w <- read_tensor y ;; new_tensor (multiply_kernel v w).

Definition Tensor_add (t y : loc) : M (runtime elt rng) loc :=
  v <- read_tensor t ;; w <- read_tensor y ;; new_tensor (add_kernel v w).

Definition Tensor_clip (t : loc) (min max : float) : M (runtime elt rng) loc :=
  if (min <=? max)%float
  then v <- read_tensor t ;; new_tensor (clip_kernel min max v)
  else raise ValueError.

(** [warnings.warn(msg, stacklevel=2)]. *)
Definition warn (msg : string) : M (runtime elt rng) unit :=
  modify (fun st =>
    {| tensors := tensors st; next_id := next_id st;
       generator := generator st; grad_enabled := grad_enabled st;
       warnings_log := warnings_log st ++ [msg] |}).

Definition set_grad_enabled (b : bool) (st : runtime elt rng) : runtime elt rng :=
  {| tensors := tensors st; next_id := next_id st; generator := generator st;
     grad_enabled := b; warnings_log := warnings_log st |}.

(** [with paddle.no_grad(): body]: the previous mode is restored on exit,
    also when [body] raises. *)
Definition with_no_grad {A} (body : M (runtime elt rng) A)
  : M (runtime elt rng) A :=
  fun st =>
    let prev := grad_enabled st in
    let '(r, st') := body (set_grad_enabled false st) in
    (r, set_grad_enabled prev st').

(** [x / y] on Python floats. *)
Definition py_div (x y : float) : M (runtime elt rng) float :=
  if (y =? 0)%float then raise ZeroDivisionError else ret (x / y)%float.

(** Lines 29-31. *)
Definition norm_cdf (x : float) : M (runtime elt rng) float :=
  q <- py_div x (sqrt 2)%float ;;
  py_div (1 + math_erf q)%float 2%float.

(** Lines 27-59.  Every assignment to [tensor] rebinds the local name. *)
Definition _no_grad_trunc_normal_ (tensor : loc) (mean std a b : float)
  : M (runtime elt rng) loc :=
  (if (mean <? a - 2 * std)%float || (b + 2 * std <? mean)%float
   then warn ("mean is more than 2 std from [a, b] in nn.init.trunc_normal_. "
              +:+ "The distribution of values may be incorrect.")
   else ret tt) ;;
  with_no_grad (
    x <- py_div (a - mean)%float std ;;
    l <- norm_cdf x ;;
    x <- py_div (b - mean)%float std ;;
    u <- norm_cdf x ;;
    shp <- Tensor_shape tensor ;;
    tensor <- paddle_uniform shp (2 * l - 1)%float (2 * u - 1)%float ;;
    tensor <- Tensor_erf tensor ;;
    y <- paddle_to_tensor (std * sqrt 2)%float ;;
    tensor <- Tensor_multiply tensor y ;;
    y <- paddle_to_tensor mean ;;
    tensor <- Tensor_add tensor y ;;
    tensor <- Tensor_clip tensor a b ;;
    ret tensor).

(** Lines 62-80. *)
Definition trunc_normal_ (tensor : loc) (mean std a b : float)
  : M (runtime elt rng) loc :=
  _no_grad_trunc_normal_ tensor mean std a b.



End TruncNormal.

(** *** [_init_weights] and [self.apply] *)

(** A layer object as [_init_weights] sees it: its class, and its [weight]
    and [bias] attributes.  A [nn.Linear] always has a weight; its bias, and
    both parameters of a [nn.LayerNorm], are [None] when the layer was built
    without them. *)
Inductive layer :=
  | Linear (weight : loc) (bias : option loc)
  | LayerNorm (weight : option loc) (bias : option loc)
  | OtherLayer.

(** The paddle runtime together with the attributes of every layer
    object. *)
Record network (elt rng : Type) := {
  paddle : runtime elt rng;
  layers : nat -> layer }.
Arguments paddle {elt rng} _.
Arguments layers {elt rng} _.

(** What a statement of [_init_weights] can raise: whatever a call into
    [trunc_normal_] raised, or the AttributeError of reading [.shape] on
    [None]. *)
Inductive init_exn :=
  | CallRaised (e : exn)
  | AttributeError (attr : string).

Inductive init_outcome (A : Type) :=
  | Done (a : A)
  | Failed (e : init_exn).
Arguments Done {A} _.
Arguments Failed {A} _.

Definition NM (elt rng A : Type) : Type :=
  network elt rng -> init_outcome A * network elt rng.

Section InitWeights.
Context {elt rng : Type}.

Variable math_erf : float -> float.
Variable uniform_kernel : rng -> list nat -> float -> float -> ndarray elt * rng.
Variable erf_kernel : ndarray elt -> ndarray elt.
Variable multiply_kernel : ndarray elt -> ndarray elt -> ndarray elt.
Variable add_kernel : ndarray elt -> ndarray elt -> ndarray elt.
Variable clip_kernel : float -> float -> ndarray elt -> ndarray elt.
Variable to_tensor_kernel : float -> ndarray elt.

(** Conversion of a Python float to the float32 payload. *)
Variable of_float : float -> elt.

Definition nret {A} (a : A) : NM elt rng A := fun net => (Done a, net).

Definition nbind {A B} (m : NM elt rng A) (k : A -> NM elt rng B)
  : NM elt rng B :=
  fun net =>
    match m net with
    | (Done a, net') => k a net'
    | (Failed e, net') => (Failed e, net')
    end.

Definition nraise {A} (e : init_exn) : NM elt rng A :=
  fun net => (Failed e, net).

(** A call into the paddle runtime. *)
Definition call {A} (m : M (runtime elt rng) A) : NM elt rng A :=
  fun net =>
    match m (paddle net) with
    | (Ok a, rt) => (Done a, {| paddle := rt; layers := layers net |})
    | (Raise e, rt) => (Failed (CallRaised e), {| paddle := rt; layers := layers net |})
    end.

(** Reading the layer object [m], and rebinding its attributes. *)
Definition get_layer (m : nat) : NM elt rng layer :=
  fun net => (Done (layers net m), net).

Definition set_layer (m : nat) (obj : layer) : NM elt rng unit :=
  fun net =>
    (Done tt, {| paddle := paddle net; layers := <[m := obj]> (layers net) |}).

(** [p.shape] of an attribute that may be [None]. *)
Definition attr_shape (attr : string) (p : option loc) : NM elt rng (list nat) :=
  match p with
  | Some l => call (Tensor_shape l)
  | None => nraise (AttributeError attr)
  end.

(** [paddle.create_parameter(shape=shp, dtype='float32',
    default_initializer=nn.initializer.Constant(value))]: a new parameter
    filled with [value]. *)
Definition create_parameter (shp : list nat) (value : float) : NM elt rng loc :=
  call (new_tensor {| shape := shp;
                      data := repeat (of_float value) (numel shp) |}).

(** [for x in xs: body(x)]. *)
Fixpoint nfor_each {A} (xs : list A) (body : A -> NM elt rng unit)
  : NM elt rng unit :=
  match xs with
  | [] => nret tt
  | x :: xs' => nbind (body x) (fun _ => nfor_each xs' body)
  end.

(** [_init_weights(self, m)], lines 300-310 of [TransformerEncoder] and,
    with the same body, lines 379-389 of [TransformerDecoder]. *)
Definition _init_weights (m : nat) : NM elt rng unit :=
  nbind (get_layer m) (fun obj =>
  match obj with
  | Linear w b =>
      nbind (call (trunc_normal_ math_erf uniform_kernel erf_kernel
                     multiply_kernel add_kernel clip_kernel to_tensor_kernel
                     w 0%float 0x1.47ae147ae147bp-6%float (-2)%float 2%float))
            (fun _ =>
      match b with
      | Some _ =>
          nbind (attr_shape "shape" b) (fun shp =>
          nbind (create_parameter shp 0%float) (fun p =>
          set_layer m (Linear w (Some p))))
      | None => nret tt
      end)
  | LayerNorm w b =>
      nbind (attr_shape "shape" w) (fun shp =>
      nbind (create_parameter shp 1%float) (fun p =>
      nbind (set_layer m (LayerNorm (Some p) b)) (fun _ =>
      nbind (attr_shape "shape" b) (fun shp' =>
      nbind (create_parameter shp' 0%float) (fun p' =>
      set_layer m (LayerNorm (Some p) (Some p')))))))
  | OtherLayer => nret tt
  end).

(** [self.apply(self._init_weights)], lines 298 and 377: paddle calls the
    function on every sublayer, children before their parent, and last on
    [self]; [visit_order] is that traversal. *)
Definition apply_init_weights (visit_order : list nat) : NM elt rng unit :=
  nfor_each visit_order _init_weights.
End InitWeights.

(** ** Vocabulary of the statements *)

(** Sum of a list of Python integers. *)
Definition Zsum (ds : list Z) : Z := fold_right Z.add 0%Z ds.

(** The first dotted component of a parameter path. *)
Fixpoint path_root (p : string) : string :=
  match p with
  | EmptyString => EmptyString
  | String c p' => if Ascii.eqb c "." then EmptyString else String c (path_root p')
  end.

(** The last character of a string, if any. *)
Fixpoint last_char (s : string) : option ascii :=
  match s with
  | EmptyString => None
  | String c s' =>
      match last_char s' with
      | None => Some c
      | Some x => Some x
      end
  end.

(** All block entries of stage [stage_idx], in emission order. *)
Definition stage_block_entries (depths : list Z) (stage_idx : nat)
  : list (string * string) :=
  flat_map (fun block_idx =>
              layer_mapping
                (("layers." +:+ fmt stage_idx +:+ ".blocks") +:+ "." +:+ fmt block_idx)
                (("stages." +:+ fmt stage_idx +:+ ".blocks") +:+ "." +:+ fmt block_idx))
           (range (nth stage_idx depths 0%Z)).

(** Everything stage [stage_idx] appends to the mapping. *)
Definition stage_entries (depths : list Z) (num_stages stage_idx : nat)
  : list (string * string) :=
  stage_block_entries depths stage_idx ++
  (if (Z.of_nat stage_idx <? Z.of_nat num_stages - 1)%Z
   then downsample_mapping stage_idx else []).

(** Entry [e] reads its source under the root where [e'] writes its
    destination, and writes where [e'] reads: the two entries use the two
    namespaces in swapped roles. *)
Definition roles_inverted (e e' : string * string) : Prop :=
  path_root (fst e) = path_root (snd e') /\
  path_root (snd e) = path_root (fst e').

(** Entries [e] and [e'] read from the same root and write to the same
    root. *)
Definition roles_aligned (e e' : string * string) : Prop :=
  path_root (fst e) = path_root (fst e') /\
  path_root (snd e) = path_root (snd e').

(** The downsample entries of stage [stage_idx] carry the stated prefixes
    and swap the roles of the block entries of the same stage. *)
Definition downsample_swaps_roles (cfg : config) (stage_idx : nat) : Prop :=
  forall e, In e (downsample_mapping stage_idx) ->
    startswith (snd e) ("stages." +:+ fmt stage_idx +:+ ".downsample") = true /\
    startswith (fst e) ("layers." +:+ fmt stage_idx +:+ ".downsample") = true /\
    forall e', In e' (stage_block_entries (STAGE_DEPTHS cfg) stage_idx) ->
      roles_inverted e e'.

Section ConvertVocabulary.
Context {elt : Type}.

(** The array [_set_value] hands to [set_value] for a source array [src]
    (lines 86-87). *)
Definition prepared (src : ndarray elt) (transpose : bool) : ndarray elt :=
  if (ndim src =? 2) && transpose
  then match transpose_1_0 src with Some v => v | None => src end
  else src.

(** The calls [_set_value(k_src, k_dst, transpose)] that the loop body makes
    for the entry [e], in order, given the keys of the two dictionaries. *)
Definition entry_calls (th_params_ : dict torch_tensor) (pd_params_ : dict loc)
    (e : string * string) : list (string * string * bool) :=
  let '(th_name, pd_name) := e in
  if dict_mem th_params_ th_name && dict_mem pd_params_ pd_name then
    [(th_name, pd_name, negb (endswith th_name "relative_position_bias_table"))]
  else
    (if dict_mem th_params_ (th_name +:+ ".weight")
        && dict_mem pd_params_ (pd_name +:+ ".weight")
     then [(th_name +:+ ".weight", pd_name +:+ ".weight", true)] else [])
    ++
    (if dict_mem th_params_ (th_name +:+ ".bias")
        && dict_mem pd_params_ (pd_name +:+ ".bias")
     then [(th_name +:+ ".bias", pd_name +:+ ".bias", true)] else []).

(** No key pair of the entry exists on both sides. *)
Definition unmatched (st : state elt) (e : string * string) : Prop :=
  let '(th_name, pd_name) := e in
  dict_mem (th_params st) th_name && dict_mem (pd_params st) pd_name = false /\
  dict_mem (th_params st) (th_name +:+ ".weight")
    && dict_mem (pd_params st) (pd_name +:+ ".weight") = false /\
  dict_mem (th_params st) (th_name +:+ ".bias")
    && dict_mem (pd_params st) (pd_name +:+ ".bias") = false.

(** What a run may change: nothing of the source side, no binding of a
    name to a tensor object on either side, and the contents only of
    paddle tensors bound in the destination namespace. *)
Definition only_destination_written (st st' : state elt) : Prop :=
  th_params st' = th_params st /\
  pd_params st' = pd_params st /\
  th_heap st' = th_heap st /\
  forall l, (forall k, dict_get (pd_params st) k <> Some l) ->
            pd_heap st' l = pd_heap st l.

(** The tensor object [_set_value] calls [numpy] on for the source [th]
    (lines 81-84), and whether torch hands out its array. *)
Definition numpy_target (th : torch_tensor) : torch_tensor :=
  if is_Parameter th then Tensor_data th else th.

Definition readable (numpy_accepts : torch_tensor -> bool)
    (th : torch_tensor) : bool :=
  numpy_accepts (numpy_target th).

(** One resolved write of the copy loop: the fields of its log line, the
    source object, the destination object and the array handed to
    [set_value]. *)
Record write := {
  w_src : string;
  w_src_shape : list nat;
  w_tensor : torch_tensor;
  w_dst : string;
  w_loc : loc;
  w_value : ndarray elt }.

Definition resolve_call (th_params_ : dict torch_tensor) (pd_params_ : dict loc)
    (th_heap_ : loc -> ndarray elt) (c : string * string * bool)
  : list write :=
  let '(k_src, k_dst, transpose) := c in
  match dict_get th_params_ k_src, dict_get pd_params_ k_dst with
  | Some th, Some pd =>
      [ {| w_src := k_src;
           w_src_shape := shape (th_heap_ (th_storage th));
           w_tensor := th;
           w_dst := k_dst;
           w_loc := pd;
           w_value := prepared (th_heap_ (th_storage th)) transpose |} ]
  | _, _ => []
  end.

(** All writes of the copy loop over [mapping], in order. *)
Definition write_plan (th_params_ : dict torch_tensor) (pd_params_ : dict loc)
    (th_heap_ : loc -> ndarray elt) (mapping : list (string * string))
  : list write :=
  flat_map (fun e => flat_map (resolve_call th_params_ pd_params_ th_heap_)
                              (entry_calls th_params_ pd_params_ e))
           mapping.

(** Performing one resolved write: the log line, then [numpy], then
    [set_value]. *)
Definition run_write (accepts : ndarray elt -> ndarray elt -> bool)
    (numpy_accepts : torch_tensor -> bool)
    (w : write) : M (state elt) unit :=
  fun st =>
    let logged :=
      snd (print (SetLine (w_src w) (w_src_shape w) (w_dst w)
                          (shape (pd_heap st (w_loc w)))) st) in
    if readable numpy_accepts (w_tensor w)
    then Tensor_set_value accepts (w_loc w) (w_value w) logged
    else (Raise NumpyError, logged).

(** Two stores of paddle tensors on which [set_value] decides alike. *)
Definition same_acceptance (accepts : ndarray elt -> ndarray elt -> bool)
    (h h' : loc -> ndarray elt) : Prop :=
  forall l x, accepts (h l) x = accepts (h' l) x.

(** The outcome of a run that checks nothing itself: success, the
    rejection raised by [set_value] for some pair of arrays, or the refusal
    of [numpy] for some tensor. *)
Definition ok_or_rejected (accepts : ndarray elt -> ndarray elt -> bool)
    (numpy_accepts : torch_tensor -> bool)
    (r : outcome unit) : Prop :=
  r = Ok tt \/
  (r = Raise SetValueError /\ exists old v, accepts old v = false) \/
  (r = Raise NumpyError /\ exists t, numpy_accepts t = false).

(** C9 as stated: whatever makes a run of the copy loop fail, it is the
    array assignment [set_value]. *)
Definition fails_only_in_set_value
    (accepts : ndarray elt -> ndarray elt -> bool)
    (numpy_accepts : torch_tensor -> bool)
    (mapping : list (string * string)) (st : state elt) : Prop :=
  forall x, fst (copy_values accepts numpy_accepts mapping st) = Raise x ->
            x = SetValueError.

(** Shape equality, the check paddle's [set_value] makes on float32
    arrays. *)
Definition same_shape (old value : ndarray elt) : bool :=
  bool_decide (shape old = shape value).
End ConvertVocabulary.
Arguments write : clear implicits.

(** Whether the loop over the torch keys reports [key] (lines 114-122),
    and whether the loop over the paddle keys does (lines 126-135). *)
Definition th_reports (th_keys : list string) (key : string) : bool :=
  negb (list_mem key th_keys) &&
  ((endswith key ".weight" && negb (list_mem (drop_last 7 key) th_keys)) ||
   (endswith key ".bias" && negb (list_mem (drop_last 5 key) th_keys))).

Definition pd_reports (pd_keys : list string) (key : string) : bool :=
  negb (list_mem key pd_keys) &&
  negb ((endswith key ".weight" && list_mem (drop_last 7 key) pd_keys) ||
        (endswith key ".bias" && list_mem (drop_last 5 key) pd_keys)).

(** ** A small checkpoint used to exercise the statements *)

Definition swin_config : config := {| STAGE_DEPTHS := [2; 2; 6; 2]%Z |}.

Definition swin_mapping : list (string * string) :=
  torch_to_paddle_mapping "swin_base_patch4_window7_224" swin_config.

(** Source arrays: a 2 by 3 weight, a bias vector, a 2 by 2 bias table and
    an index buffer. *)
Definition ex_weight : ndarray Z :=
  {| shape := [2; 3]; data := [1; 2; 3; 4; 5; 6]%Z |}.
Definition ex_bias : ndarray Z := {| shape := [3]; data := [7; 8; 9]%Z |}.
Definition ex_table : ndarray Z :=
  {| shape := [2; 2]; data := [10; 11; 12; 13]%Z |}.
Definition ex_index : ndarray Z := {| shape := [1]; data := [0]%Z |}.

Definition zeros (shp : list nat) : ndarray Z :=
  {| shape := shp; data := repeat 0%Z (numel shp) |}.

Definition ex_state : state Z :=
  {| th_params :=
       [ ("head.weight", {| is_Parameter := true; th_storage := 0 |});
         ("head.bias", {| is_Parameter := true; th_storage := 1 |});
         ("layers.0.blocks.0.attn.relative_position_bias_table",
          {| is_Parameter := true; th_storage := 2 |});
         ("layers.0.blocks.0.attn.relative_position_index",
          {| is_Parameter := false; th_storage := 3 |}) ];
     pd_params :=
       [ ("fc.weight", 0); ("fc.bias", 1);
         ("stages.0.blocks.0.attn.relative_position_bias_table", 2);
         ("foo.weight", 3) ];
     th_heap := fun l =>
       match l with
       | 0 => ex_weight | 1 => ex_bias | 2 => ex_table | _ => ex_index
       end;
     pd_heap := fun l =>
       match l with
       | 0 => zeros [3; 2] | 1 => zeros [3] | 2 => zeros [2; 2] | _ => zeros [4]
       end;
     stdout := [] |}.

(** Torch hands out every array: all tensors are detached and live in host
    memory. *)
Definition host_tensors (t : torch_tensor) : bool := true.

(** Torch refuses every tensor: the torch model lives on an accelerator,
    whose memory cannot be viewed as an array. *)
Definition device_tensors (t : torch_tensor) : bool := false.

(** The same checkpoint with a destination weight of the wrong shape. *)
Definition ex_state_mismatch : state Z :=
  set_pd_heap (<[0 := zeros [5]]> (pd_heap ex_state)) ex_state.

(** ** Vocabulary and a small runtime for [trunc_normal_] *)

(** Every tensor object that exists in [st] exists in [st'] with the same
    contents. *)
Definition tensors_preserved {elt rng} (st st' : runtime elt rng) : Prop :=
  next_id st <= next_id st' /\
  forall l, l < next_id st -> tensors st' l = tensors st l.

(** A computation that keeps every existing tensor as it is. *)
Definition keeps {elt rng A} (m : M (runtime elt rng) A) : Prop :=
  forall st, tensors_preserved st (snd (m st)).

(** A computation whose result, when it returns one, is a tensor object
    created during the computation. *)
Definition makes {elt rng} (m : M (runtime elt rng) loc) : Prop :=
  forall st t, fst (m st) = Ok t ->
    next_id st <= t /\ t < next_id (snd (m st)).

(** Stand-ins for the numeric kernels, on integer payloads. *)
Definition ex_uniform (g : nat) (shp : list nat) (min max : float)
  : ndarray Z * nat :=
  ({| shape := shp; data := repeat (Z.of_nat g) (numel shp) |}, S g).
Definition ex_unary (v : ndarray Z) : ndarray Z :=
  {| shape := shape v; data := map Z.succ (data v) |}.
Definition ex_binary (v w : ndarray Z) : ndarray Z :=
  {| shape := shape v; data := map (Z.add (hd 0%Z (data w))) (data v) |}.
Definition ex_clip (min max : float) (v : ndarray Z) : ndarray Z := v.
Definition ex_to_tensor (x : float) : ndarray Z :=
  {| shape := []; data := [1%Z] |}.

(** A runtime holding a [cls_token] of shape [1, 1, 4] at identity 0 and a
    [pos_embed] of shape [1, 3, 4] at identity 1, as [create_parameter]
    with a constant zero initialiser leaves them. *)
Definition ex_runtime : runtime Z nat :=
  {| tensors := fun l => match l with 0 => zeros [1; 1; 4] | _ => zeros [1; 3; 4] end;
     next_id := 2;
     generator := 5;
     grad_enabled := true;
     warnings_log := [] |}.

(** ** Vocabulary of the further statements *)

(** The four entries of the mapping that do not belong to a stage. *)
Definition fixed_entries : list (string * string) :=
  [ ("patch_embed.proj", "patch_embedding.patch_embed");
    ("patch_embed.norm", "patch_embedding.norm");
    ("norm", "norm"); ("head", "fc") ].

(** The array of the last write of a plan to the tensor object [l], if the
    plan writes to it at all. *)
Definition last_write {elt} (l : loc) (ws : list (write elt))
  : option (ndarray elt) :=
  fold_left (fun acc w => if Nat.eqb (w_loc w) l then Some (w_value w) else acc)
            ws None.

(** The dictionary [convert] builds from the parameters and then the buffers
    of a model (lines 91-101). *)
Definition namespace_of {V} (named_parameters named_buffers : list (string * V))
  : dict V :=
  dict_update (dict_update [] named_parameters) named_buffers.

(** The array [create_parameter] fills with a constant. *)
Definition full {elt} (of_float : float -> elt) (shp : list nat) (value : float)
  : ndarray elt :=
  {| shape := shp; data := repeat (of_float value) (numel shp) |}.

(** Every existing tensor of the runtime of [net] exists in [net'] with
    the same contents. *)
Definition network_tensors_preserved {elt rng} (net net' : network elt rng)
  : Prop :=
  tensors_preserved (paddle net) (paddle net').

(** Every [LayerNorm] among the layers [ms] has both of its parameters. *)
Definition norms_complete {elt rng} (net : network elt rng) (ms : list nat)
  : Prop :=
  forall m, In m ms ->
    match layers net m with
    | LayerNorm w b => w <> None /\ b <> None
    | _ => True
    end.

(** A float32 stand-in on integers: zero for [0.0], one otherwise. *)
Definition ex_of_float (x : float) : Z := if (x =? 0)%float then 0%Z else 1%Z.

(** A network of three layers over four tensors: a [Linear] with a bias, a
    [LayerNorm] with both parameters, and a [LayerNorm] built without a
    weight. *)
Definition ex_network : network Z nat :=
  {| paddle :=
       {| tensors := fun l =>
            match l with
            | 0 => {| shape := [2; 3]; data := [1; 2; 3; 4; 5; 6]%Z |}
            | 1 => {| shape := [3]; data := [7; 8; 9]%Z |}
            | 2 => {| shape := [4]; data := [5; 5; 5; 5]%Z |}
            | _ => {| shape := [4]; data := [6; 6; 6; 6]%Z |}
            end;
          next_id := 4;
          generator := 0;
          grad_enabled := true;
          warnings_log := [] |};
     layers := fun m =>
       match m with
       | 0 => Linear 0 (Some 1)
       | 1 => LayerNorm (Some 2) (Some 3)
       | 2 => LayerNorm None (Some 3)
       | _ => OtherLayer
       end |}.

(** Two small models over the tensors of [ex_state]; the paddle model
    registers the name [fc.bias] both as a parameter and as a buffer. *)
Definition ex_torch_model : torch_model :=
  {| th_named_parameters :=
       [ ("head.weight", {| is_Parameter := true; th_storage := 0 |});
         ("head.bias", {| is_Parameter := true; th_storage := 1 |}) ];
     th_named_buffers :=
       [ ("layers.0.blocks.0.attn.relative_position_index",
          {| is_Parameter := false; th_storage := 3 |}) ] |}.

Definition ex_paddle_model : paddle_model :=
  {| pd_named_parameters := [ ("fc.weight", 0); ("fc.bias", 3) ];
     pd_named_buffers := [ ("fc.bias", 1) ] |}.

(** The value of [norm_cdf] when nothing raises. *)
Definition cdf_value (math_erf : float -> float) (x : float) : float :=
  ((1 + math_erf (x / sqrt 2)) / 2)%float.

(** The draw of [_no_grad_trunc_normal_]: the array [paddle.uniform] returns
    for the shape [shp] and the bounds computed from [mean], [std], [a] and
    [b], with the generator it leaves. *)
Definition trunc_normal_draw {elt rng} (math_erf : float -> float)
    (uniform_kernel : rng -> list nat -> float -> float -> ndarray elt * rng)
    (g : rng) (shp : list nat) (mean std a b : float) : ndarray elt * rng :=
  let l := cdf_value math_erf ((a - mean) / std)%float in
  let u := cdf_value math_erf ((b - mean) / std)%float in
  uniform_kernel g shp (2 * l - 1)%float (2 * u - 1)%float.

(** What [_no_grad_trunc_normal_] makes of the drawn array [v]. *)
Definition trunc_normal_value {elt}
    (erf_kernel : ndarray elt -> ndarray elt)
    (multiply_kernel add_kernel : ndarray elt -> ndarray elt -> ndarray elt)
    (clip_kernel : float -> float -> ndarray elt -> ndarray elt)
    (to_tensor_kernel : float -> ndarray elt)
    (v : ndarray elt) (mean std a b : float) : ndarray elt :=
  clip_kernel a b
    (add_kernel
       (multiply_kernel (erf_kernel v) (to_tensor_kernel (std * sqrt 2)%float))
       (to_tensor_kernel mean)).

(** The warning of [_no_grad_trunc_normal_], and when it is issued. *)
Definition trunc_normal_warning : string :=
  "mean is more than 2 std from [a, b] in nn.init.trunc_normal_. "
  +:+ "The distribution of values may be incorrect.".

Definition mean_out_of_range (mean std a b : float) : bool :=
  (mean <? a - 2 * std)%float || (b + 2 * std <? mean)%float.

(** The parameters of the layer [m] are tensor objects that exist in
    [net]. *)
Definition layer_allocated {elt rng} (net : network elt rng) (m : nat)
  : Prop :=
  let live (p : option loc) :=
    forall l, p = Some l -> l < next_id (paddle net) in
  match layers net m with
  | Linear w b => w < next_id (paddle net) /\ live b
  | LayerNorm w b => live w /\ live b
  | OtherLayer => True
  end.

(** The layer [m] of [net'] is the layer [m] of [net] after
    [_init_weights]: a [Linear] has the weight object it had and, when it
    had a bias, a bias created since that holds zeros of the old shape; a
    complete [LayerNorm] has a weight of ones and a bias of zeros, both
    created since, of the old shapes. *)
Definition initialised {elt rng} (of_float : float -> elt)
    (net net' : network elt rng) (m : nat) : Prop :=
  let fresh (p : loc) :=
    next_id (paddle net) <= p /\ p < next_id (paddle net') in
  match layers net m with
  | Linear w None => layers net' m = Linear w None
  | Linear w (Some b) =>
      exists p, layers net' m = Linear w (Some p) /\ fresh p /\
        tensors (paddle net') p
        = full of_float (shape (tensors (paddle net) b)) 0
  | LayerNorm (Some w) (Some b) =>
      exists p p', layers net' m = LayerNorm (Some p) (Some p') /\
        fresh p /\ fresh p' /\
        tensors (paddle net') p
        = full of_float (shape (tensors (paddle net) w)) 1 /\
        tensors (paddle net') p'
        = full of_float (shape (tensors (paddle net) b)) 0
  | LayerNorm _ _ => True
  | OtherLayer => layers net' m = OtherLayer
  end.

(** The runtime after [create_parameter] made a parameter holding [v]. *)
Definition with_parameter {elt rng} (rt : runtime elt rng) (v : ndarray elt)
  : runtime elt rng :=
  {| tensors := <[next_id rt := v]> (tensors rt);
     next_id := S (next_id rt);
     generator := generator rt;
     grad_enabled := grad_enabled rt;
     warnings_log := warnings_log rt |}.

(** The string holds no full stop. *)
Fixpoint no_dot (s : string) : bool :=
  match s with
  | EmptyString => true
  | String c s' => negb (Ascii.eqb c ".") && no_dot s'
  end.

(** The seven sub-layer names of a block. *)
Definition block_suffixes : list string :=
  [ ".norm1"; ".attn.relative_position_bias_table"; ".attn.qkv";
    ".attn.proj"; ".norm2"; ".mlp.fc1"; ".mlp.fc2" ].

(** The paths of the entries of stage [stage_idx], below the root. *)
Definition stage_stems (depths : list Z) (num_stages stage_idx : nat)
  : list string :=
  flat_map (fun block_idx =>
              map (fun sfx => fmt stage_idx +:+ "." +:+ "blocks" +:+ "."
                              +:+ fmt block_idx +:+ sfx)
                  block_suffixes)
           (range (nth stage_idx depths 0%Z))
  ++ (if (Z.of_nat stage_idx <? Z.of_nat num_stages - 1)%Z
      then [ fmt stage_idx +:+ "." +:+ "downsample.reduction.weight";
             fmt stage_idx +:+ "." +:+ "downsample.norm" ]
      else []).

(** The runtime [st'] is [st] after one more tensor object was created, at
    the identity [next_id st] and holding [v]; nothing else has changed. *)
Definition allocated {elt rng} (st st' : runtime elt rng) (v : ndarray elt)
  : Prop :=
  next_id st' = S (next_id st) /\ tensors st' (next_id st) = v /\
  (forall l, l < next_id st -> tensors st' l = tensors st l) /\
  generator st' = generator st /\
  grad_enabled st' = grad_enabled st /\ warnings_log st' = warnings_log st.

(** ** Properties of [torch_to_paddle_mapping] *)

Section MappingFacts.

Lemma fold_left_extend {A B} (f : A -> list B) (xs : list A) (acc : list B) :
  fold_left (fun m x => m ++ f x) xs acc = acc ++ flat_map f xs.
Proof.
  revert acc. induction xs as [|x xs IH]; intros acc; simpl.
  - now rewrite app_nil_r.
  - rewrite IH. now rewrite <- app_assoc.
Qed.

Lemma stage_step_entries depths n mapping s :
  stage_step depths n mapping s = mapping ++ stage_entries depths n s.
Proof.
  unfold stage_step, stage_entries, stage_block_entries.
  unfold block_step. rewrite fold_left_extend.
  destruct (Z.of_nat s <? Z.of_nat n - 1)%Z.
  - now rewrite <- app_assoc.
  - now rewrite app_nil_r.
Qed.

Lemma torch_to_paddle_mapping_entries model_name cfg :
  torch_to_paddle_mapping model_name cfg =
    [ ("patch_embed.proj", "patch_embedding.patch_embed");
      ("patch_embed.norm", "patch_embedding.norm") ]
    ++ flat_map (stage_entries (STAGE_DEPTHS cfg) (length (STAGE_DEPTHS cfg)))
                (seq 0 (length (STAGE_DEPTHS cfg)))
    ++ [ ("norm", "norm"); ("head", "fc") ].
Proof.
  unfold torch_to_paddle_mapping.
  set (depths := STAGE_DEPTHS cfg). set (n := length depths).
  assert (H : forall xs acc,
             fold_left (stage_step depths n) xs acc
             = acc ++ flat_map (stage_entries depths n) xs).
  { induction xs as [|x xs IH]; intros acc; simpl.
    - now rewrite app_nil_r.
    - rewrite IH, stage_step_entries. now rewrite <- app_assoc. }
  rewrite H. now rewrite <- app_assoc.
Qed.

Lemma stage_entries_length depths n s :
  length (stage_entries depths n s) =
    7 * Z.to_nat (nth s depths 0%Z)
    + (if (Z.of_nat s <? Z.of_nat n - 1)%Z then 2 else 0).
Proof.
  unfold stage_entries, stage_block_entries, range.
  rewrite length_app.
  rewrite (flat_map_constant_length (c := 7)) by reflexivity.
  rewrite length_seq.
  destruct (Z.of_nat s <? Z.of_nat n - 1)%Z; simpl; lia.
Qed.

Lemma nth_seq_map (pre ds : list Z) :
  map (fun s => nth s (pre ++ ds) 0%Z) (seq (length pre) (length ds)) = ds.
Proof.
  revert pre. induction ds as [|d ds IH]; intros pre; simpl; [reflexivity|].
  f_equal.
  - rewrite app_nth2 by lia. now rewrite Nat.sub_diag.
  - specialize (IH (pre ++ [d])).
    rewrite <- app_assoc, length_app in IH. simpl in IH.
    now rewrite Nat.add_1_r in IH.
Qed.

Lemma block_total (ds : list Z) :
  Forall (fun d => 0 <= d)%Z ds ->
  Z.of_nat (list_sum (map (fun d => 7 * Z.to_nat d) ds)) = (7 * Zsum ds)%Z.
Proof.
  unfold Zsum, list_sum.
  induction 1 as [|d ds Hd _ IH]; cbn [map fold_right]; [reflexivity|].
  lia.
Qed.

Lemma downsample_total (n m : nat) :
  list_sum (map (fun s => if (Z.of_nat s <? Z.of_nat n - 1)%Z then 2 else 0)
                (seq 0 m)) = 2 * Nat.min m (n - 1).
Proof.
  induction m as [|m IH]; [reflexivity|].
  rewrite seq_S, map_app, list_sum_app, IH.
  cbn [map list_sum fold_right Nat.add].
  destruct (Z.ltb_spec (Z.of_nat m) (Z.of_nat n - 1)); lia.
Qed.

Lemma list_sum_map_add {A} (f g : A -> nat) (xs : list A) :
  list_sum (map (fun x => f x + g x) xs)
  = list_sum (map f xs) + list_sum (map g xs).
Proof. induction xs as [|x xs IH]; simpl; lia. Qed.

(** C2. For a non-empty list of positive block counts [d0, ..., d(n-1)],
    [torch_to_paddle_mapping] returns exactly
    [2 + 7 * (d0 + ... + d(n-1)) + 2 * (n - 1) + 2] entries. *)
Theorem torch_to_paddle_mapping_length model_name cfg :
  STAGE_DEPTHS cfg <> [] ->
  Forall (fun d => 0 < d)%Z (STAGE_DEPTHS cfg) ->
  Z.of_nat (length (torch_to_paddle_mapping model_name cfg)) =
    (2 + 7 * Zsum (STAGE_DEPTHS cfg)
     + 2 * (Z.of_nat (length (STAGE_DEPTHS cfg)) - 1) + 2)%Z.
Proof.
  intros Hne Hpos.
  rewrite torch_to_paddle_mapping_entries.
  set (depths := STAGE_DEPTHS cfg) in *. set (n := length depths).
  rewrite !length_app, length_flat_map. simpl length.
  rewrite (map_ext _ (fun s => 7 * Z.to_nat (nth s depths 0%Z)
             + (if (Z.of_nat s <? Z.of_nat n - 1)%Z then 2 else 0)))
    by (intros s; apply stage_entries_length).
  rewrite (list_sum_map_add (fun s => 7 * Z.to_nat (nth s depths 0%Z))).
  rewrite downsample_total.
  change (fun s => 7 * Z.to_nat (nth s depths 0%Z))
    with (fun s => (fun d => 7 * Z.to_nat d) ((fun s => nth s depths 0%Z) s)).
  rewrite <- (map_map (fun s => nth s depths 0%Z) (fun d => 7 * Z.to_nat d)).
  pose proof (nth_seq_map [] depths) as Hseq. simpl in Hseq.
  fold n in Hseq. rewrite Hseq.
  assert (Hnn : Forall (fun d => 0 <= d)%Z depths).
  { eapply Forall_impl; [|exact Hpos]. simpl. intros; lia. }
  pose proof (block_total depths Hnn) as Hb.
  assert (0 < n) by (subst n; destruct depths; simpl; [congruence | lia]).
  lia.
Qed.

(** The scenario of C2: four stages of 2, 2, 6 and 2 blocks give 94 entries. *)
Lemma torch_to_paddle_mapping_length_swin :
  Z.of_nat (length (torch_to_paddle_mapping "swin_base_patch4_window7_224"
                      {| STAGE_DEPTHS := [2; 2; 6; 2]%Z |})) = 94%Z.
Proof.
  rewrite torch_to_paddle_mapping_length.
  - reflexivity.
  - discriminate.
  - simpl. repeat constructor.
Defined.

Lemma prefix_append (p x : string) : String.prefix p (p +:+ x) = true.
Proof.
  induction p as [|c p IH]; simpl.
  - now destruct x.
  - destruct (ascii_dec c c); [exact IH | congruence].
Qed.

Lemma prefix_append_same (a b c : string) :
  String.prefix (a +:+ b) (a +:+ c) = String.prefix b c.
Proof.
  induction a as [|x a IH]; simpl; [reflexivity|].
  destruct (ascii_dec x x); [exact IH | congruence].
Qed.

Lemma append_assoc (a b c : string) : (a +:+ b) +:+ c = a +:+ (b +:+ c).
Proof.
  induction a as [|x a IH]; [reflexivity|].
  change (String x ((a +:+ b) +:+ c) = String x (a +:+ (b +:+ c))).
  now rewrite IH.
Qed.

Lemma seq_split_at (n s : nat) :
  s < n -> seq 0 n = seq 0 s ++ s :: seq (S s) (n - S s).
Proof.
  intros H. replace n with (s + S (n - S s)) at 1 by lia.
  rewrite seq_app. reflexivity.
Qed.

Lemma stage_entries_in_mapping model_name cfg s :
  s < length (STAGE_DEPTHS cfg) ->
  exists pre post,
    torch_to_paddle_mapping model_name cfg
    = pre ++ stage_entries (STAGE_DEPTHS cfg) (length (STAGE_DEPTHS cfg)) s
          ++ post.
Proof.
  intros Hs. rewrite torch_to_paddle_mapping_entries.
  rewrite (seq_split_at _ s Hs), flat_map_app. cbn [flat_map].
  set (f := stage_entries (STAGE_DEPTHS cfg) (length (STAGE_DEPTHS cfg))).
  exists ([ ("patch_embed.proj", "patch_embedding.patch_embed");
            ("patch_embed.norm", "patch_embedding.norm") ]
          ++ flat_map f (seq 0 s)),
         (flat_map f (seq (S s) (length (STAGE_DEPTHS cfg) - S s))
          ++ [ ("norm", "norm"); ("head", "fc") ]).
  now rewrite <- !app_assoc.
Qed.

Lemma block_entry_paths depths s e :
  In e (stage_block_entries depths s) ->
  startswith (fst e) ("layers." +:+ fmt s +:+ ".blocks") = true /\
  startswith (snd e) ("stages." +:+ fmt s +:+ ".blocks") = true /\
  path_root (fst e) = "layers" /\ path_root (snd e) = "stages".
Proof.
  unfold stage_block_entries. rewrite in_flat_map.
  intros (b & _ & Hin). unfold startswith.
  unfold layer_mapping in Hin. simpl in Hin.
  repeat (destruct Hin as [<- | Hin]; [
    cbn [fst snd]; rewrite !append_assoc, !prefix_append_same;
    split; [apply prefix_append|];
    split; [apply prefix_append|];
    split; reflexivity |]).
  contradiction.
Qed.

Lemma downsample_entry_paths s e :
  In e (downsample_mapping s) ->
  startswith (fst e) ("layers." +:+ fmt s +:+ ".downsample") = true /\
  startswith (snd e) ("stages." +:+ fmt s +:+ ".downsample") = true /\
  path_root (fst e) = "layers" /\ path_root (snd e) = "stages".
Proof.
  unfold downsample_mapping, startswith. simpl.
  intros [<- | [<- | []]]; cbn [fst snd];
    rewrite !prefix_append_same; repeat split; reflexivity.
Qed.

(** C3, as the code has it. For every stage [s] but the last, the mapping
    holds the block entries of [s] followed by its two downsample entries;
    the downsample entries have destination prefix [stages.{s}.downsample]
    and source prefix [layers.{s}.downsample], and they use the two
    namespaces in the same roles as the block entries of the stage: the
    source under [layers], the destination under [stages]. *)
Theorem downsample_entries_aligned model_name cfg s :
  S s < length (STAGE_DEPTHS cfg) ->
  (exists pre post,
      torch_to_paddle_mapping model_name cfg
      = pre ++ stage_block_entries (STAGE_DEPTHS cfg) s
            ++ downsample_mapping s ++ post) /\
  forall e, In e (downsample_mapping s) ->
    In e (torch_to_paddle_mapping model_name cfg) /\
    startswith (snd e) ("stages." +:+ fmt s +:+ ".downsample") = true /\
    startswith (fst e) ("layers." +:+ fmt s +:+ ".downsample") = true /\
    forall e', In e' (stage_block_entries (STAGE_DEPTHS cfg) s) ->
      In e' (torch_to_paddle_mapping model_name cfg) /\
      startswith (snd e') ("stages." +:+ fmt s +:+ ".blocks") = true /\
      startswith (fst e') ("layers." +:+ fmt s +:+ ".blocks") = true /\
      roles_aligned e e'.
Proof.
  intros Hs.
  assert (Hdec : exists pre post,
      torch_to_paddle_mapping model_name cfg
      = pre ++ stage_block_entries (STAGE_DEPTHS cfg) s
            ++ downsample_mapping s ++ post).
  { destruct (stage_entries_in_mapping model_name cfg s) as (pre & post & E);
      [lia|].
    exists pre, post. rewrite E. unfold stage_entries.
    destruct (Z.ltb_spec (Z.of_nat s) (Z.of_nat (length (STAGE_DEPTHS cfg)) - 1));
      [|lia].
    now rewrite <- app_assoc. }
  split; [exact Hdec|].
  destruct Hdec as (pre & post & E).
  intros e He.
  destruct (downsample_entry_paths s e He) as (Hsrc & Hdst & Hr1 & Hr2).
  split; [rewrite E, !in_app_iff; tauto|].
  split; [exact Hdst|]. split; [exact Hsrc|].
  intros e' He'.
  destruct (block_entry_paths _ s e' He') as (Hsrc' & Hdst' & Hr1' & Hr2').
  split; [rewrite E, !in_app_iff; tauto|].
  split; [exact Hdst'|]. split; [exact Hsrc'|].
  split; congruence.
Qed.

Lemma downsample_entries_aligned_swin :
  let cfg := {| STAGE_DEPTHS := [2; 2; 6; 2]%Z |} in
  In ("layers.0.downsample.norm", "stages.0.downsample.norm")
     (torch_to_paddle_mapping "swin_base_patch4_window7_224" cfg) /\
  roles_aligned ("layers.0.downsample.norm", "stages.0.downsample.norm")
                ("layers.0.blocks.1.attn.qkv", "stages.0.blocks.1.attn.qkv").
Proof.
  intros cfg.
  assert (Hs : S 0 < length (STAGE_DEPTHS cfg)) by (simpl; lia).
  destruct (downsample_entries_aligned "swin_base_patch4_window7_224" cfg 0 Hs)
    as [_ H].
  destruct (H ("layers.0.downsample.norm", "stages.0.downsample.norm"))
    as (Hin & _ & _ & Hblk).
  { vm_compute. tauto. }
  split; [exact Hin|].
  apply Hblk. vm_compute. tauto.
Defined.

(** C3, as stated, fails on the four-stage Swin configuration: the
    downsample entries of stage 0 do not swap the roles of its block
    entries. *)
Lemma downsample_roles_not_swapped :
  ~ downsample_swaps_roles {| STAGE_DEPTHS := [2; 2; 6; 2]%Z |} 0.
Proof.
  intros H.
  destruct (H ("layers.0.downsample.norm", "stages.0.downsample.norm"))
    as (_ & _ & Hinv).
  { vm_compute. tauto. }
  destruct (Hinv ("layers.0.blocks.0.norm1", "stages.0.blocks.0.norm1"))
    as [Hroot _].
  { vm_compute. tauto. }
  vm_compute in Hroot. discriminate Hroot.
Qed.

End MappingFacts.

(** ** Properties of [transpose_1_0] *)

Section ArrayFacts.
Context {elt : Type}.

Lemma gather_lookup (f : nat -> option elt) (s n : nat) :
  (forall i, s <= i < s + n -> is_Some (f i)) ->
  length (flat_map (fun i => option_list (f i)) (seq s n)) = n /\
  forall k, k < n ->
    flat_map (fun i => option_list (f i)) (seq s n) !! k = f (s + k).
Proof.
  revert s. induction n as [|n IH]; intros s Hf.
  - split; [reflexivity | intros k Hk; lia].
  - cbn [seq flat_map].
    destruct (Hf s ltac:(lia)) as [x Hx]. rewrite Hx. cbn [option_list app].
    destruct (IH (S s)) as [Hlen Hlk]; [intros i Hi; apply Hf; lia|].
    split; [cbn; now rewrite Hlen|].
    intros [|k] Hk; cbn.
    + now rewrite Nat.add_0_r.
    + rewrite Hlk by lia. f_equal. lia.
Qed.

Lemma blocks_lookup (F : nat -> list elt) (r s m : nat) :
  (forall j, s <= j < s + m -> length (F j) = r) ->
  length (flat_map F (seq s m)) = m * r /\
  forall j i, j < m -> i < r ->
    flat_map F (seq s m) !! (j * r + i) = F (s + j) !! i.
Proof.
  revert s. induction m as [|m IH]; intros s HF.
  - split; [reflexivity | intros j i Hj; lia].
  - cbn [seq flat_map].
    destruct (IH (S s)) as [Hlen Hlk]; [intros j Hj; apply HF; lia|].
    pose proof (HF s ltac:(lia)) as Hs.
    split; [rewrite length_app, Hlen, Hs; cbn [Nat.mul]; lia|].
    intros [|j] i Hj Hi.
    + rewrite Nat.add_0_r. cbn [Nat.mul Nat.add].
      apply lookup_app_l. lia.
    + rewrite lookup_app_r by (rewrite Hs; lia).
      rewrite Hs. replace (S j * r + i - r) with (j * r + i) by lia.
      rewrite Hlk by lia. now replace (s + S j) with (S s + j) by lia.
Qed.
Lemma item_2d (a : ndarray elt) r c i j :
  shape a = [r; c] -> i < r -> j < c -> item a [i; j] = data a !! (i * c + j).
Proof.
  intros Hs Hi Hj. unfold item. rewrite Hs. cbn [ravel numel fold_right].
  destruct (Nat.ltb_spec i r); [|lia]. destruct (Nat.ltb_spec j c); [|lia].
  f_equal. lia.
Qed.

(** On a well-formed [r] by [c] array, [transpose_1_0] yields a well-formed
    [c] by [r] array whose element [(j, i)] is the element [(i, j)] of the
    argument. *)
Lemma transpose_spec (a v : ndarray elt) r c :
  shape a = [r; c] -> ndarray_wf a -> transpose_1_0 a = Some v ->
  shape v = [c; r] /\ ndarray_wf v /\
  forall i j, i < r -> j < c ->
    item v [j; i] = item a [i; j] /\ is_Some (item a [i; j]).
Proof.
  intros Hs Hwf Ht. unfold transpose_1_0 in Ht. rewrite Hs in Ht.
  injection Ht as <-. cbn [shape].
  unfold ndarray_wf in *. rewrite Hs in Hwf. cbn [numel fold_right] in Hwf.
  set (f := fun j i => data a !! (i * c + j)).
  set (F := fun j => flat_map (fun i => option_list (f j i)) (seq 0 r)).
  assert (Hf : forall j i, j < c -> i < r -> is_Some (f j i)).
  { intros j i Hj Hi. apply lookup_lt_is_Some. nia. }
  assert (HF : forall j, j < c ->
             length (F j) = r /\ forall i, i < r -> F j !! i = f j i).
  { intros j Hj. destruct (gather_lookup (f j) 0 r) as [Hl Hk].
    - intros i Hi. apply Hf; lia.
    - split; [exact Hl | intros i Hi; now rewrite Hk]. }
  destruct (blocks_lookup F r 0 c) as [Hlen Hlk].
  { intros j Hj. apply HF. lia. }
  split; [reflexivity|]. split.
  { cbn [data shape numel fold_right].
    change (length (flat_map F (seq 0 c)) = c * (r * 1)). rewrite Hlen. lia. }
  intros i j Hi Hj.
  rewrite (item_2d a r c i j Hs Hi Hj).
  split; [|apply (Hf j i Hj Hi)].
  match goal with |- item ?v _ = _ =>
    rewrite (item_2d v c r j i (eq_refl : shape v = [c; r]) Hj Hi) end.
  cbn [data].
  change (flat_map F (seq 0 c) !! (j * r + i) = f j i).
  rewrite (Hlk j i Hj Hi). cbn [Nat.add].
  now destruct (HF j Hj) as [_ ->].
Qed.

End ArrayFacts.

(** ** Properties of the copy loop of [convert] *)

Section ConvertFacts.
Context {elt : Type}.
Variable accepts : ndarray elt -> ndarray elt -> bool.
Variable numpy_accepts : torch_tensor -> bool.

Implicit Types (st : state elt) (e : string * string).

Lemma dict_mem_true {V} (d : dict V) k :
  dict_mem d k = true <-> exists v, dict_get d k = Some v.
Proof.
  unfold dict_mem. destruct (dict_get d k) as [v|]; split.
  - eauto.
  - reflexivity.
  - discriminate.
  - intros [v Hv]. discriminate.
Qed.

Lemma transpose_defined (a : ndarray elt) :
  ndim a = 2 -> exists v, transpose_1_0 a = Some v.
Proof.
  unfold ndim, transpose_1_0.
  destruct (shape a) as [|r [|c [|x s]]]; simpl; try discriminate.
  eauto.
Qed.

(** A call of [_set_value] on keys that exist: one log line, then [numpy],
    then the prepared array goes to [set_value] of the destination
    tensor. *)
Lemma _set_value_run th_name pd_name tr st th pd :
  dict_get (th_params st) th_name = Some th ->
  dict_get (pd_params st) pd_name = Some pd ->
  _set_value accepts numpy_accepts th_name pd_name tr st =
    if readable numpy_accepts th
    then Tensor_set_value accepts pd
           (prepared (th_heap st (th_storage th)) tr)
           (snd (print (SetLine th_name (shape (th_heap st (th_storage th)))
                                pd_name (shape (pd_heap st pd))) st))
    else (Raise NumpyError,
          snd (print (SetLine th_name (shape (th_heap st (th_storage th)))
                              pd_name (shape (pd_heap st pd))) st)).
Proof.
  intros Hth Hpd.
  unfold _set_value, bind, gets, getitem, th_shape_of, pd_shape_of, prepared,
    readable, numpy_target.
  cbn [fst snd]. rewrite Hth, Hpd. cbn.
  assert (Hv : forall st0,
             (if is_Parameter th
              then numpy numpy_accepts (Tensor_data th)
              else numpy numpy_accepts th) st0
             = if numpy_accepts (if is_Parameter th then Tensor_data th else th)
               then (Ok (th_heap st0 (th_storage th)), st0)
               else (Raise NumpyError, st0))
    by (intros st0; unfold numpy; destruct (is_Parameter th); reflexivity).
  rewrite Hv.
  destruct (numpy_accepts _); [|reflexivity]. cbn.
  destruct (Nat.eqb_spec (ndim (th_heap st (th_storage th))) 2) as [Hd|Hd];
    destruct tr; cbn; try reflexivity.
  destruct (transpose_defined _ Hd) as [v ->]. reflexivity.
Qed.

Lemma _set_value_no_source th_name pd_name tr st :
  dict_get (th_params st) th_name = None ->
  _set_value accepts numpy_accepts th_name pd_name tr st
  = (Raise (KeyError th_name), st).
Proof.
  intros H. unfold _set_value, bind, gets, getitem. cbn. now rewrite H.
Qed.

Lemma _set_value_no_destination th_name pd_name tr st th :
  dict_get (th_params st) th_name = Some th ->
  dict_get (pd_params st) pd_name = None ->
  _set_value accepts numpy_accepts th_name pd_name tr st
  = (Raise (KeyError pd_name), st).
Proof.
  intros H1 H2. unfold _set_value, bind, gets, getitem, numpy. cbn.
  rewrite H1. cbn. now rewrite H2.
Qed.

Lemma only_destination_written_refl st : only_destination_written st st.
Proof. repeat split. Qed.

Lemma only_destination_written_trans st1 st2 st3 :
  only_destination_written st1 st2 ->
  only_destination_written st2 st3 ->
  only_destination_written st1 st3.
Proof.
  intros (A1 & A2 & A3 & A4) (B1 & B2 & B3 & B4).
  repeat split; try congruence.
  intros l Hl. rewrite B4, A4; auto. rewrite A2. exact Hl.
Qed.

Lemma _set_value_frame th_name pd_name tr st :
  only_destination_written st
    (snd (_set_value accepts numpy_accepts th_name pd_name tr st)).
Proof.
  destruct (dict_get (th_params st) th_name) as [th|] eqn:Hth.
  2:{ rewrite _set_value_no_source by exact Hth.
      apply only_destination_written_refl. }
  destruct (dict_get (pd_params st) pd_name) as [pd|] eqn:Hpd.
  2:{ rewrite (_set_value_no_destination _ _ _ _ th) by assumption.
      apply only_destination_written_refl. }
  rewrite (_set_value_run _ _ _ _ th pd) by assumption.
  destruct (readable numpy_accepts th);
    [|unfold print, modify; cbn [snd]; repeat split].
  unfold Tensor_set_value, print, modify. cbn [snd pd_heap].
  destruct (accepts _ _); unfold only_destination_written, set_pd_heap;
    cbn [snd th_params pd_params th_heap pd_heap]; repeat split.
  intros l Hl. apply fn_lookup_insert_ne.
  intros ->. now apply (Hl pd_name).
Qed.

Lemma bind_frame {A B} (m : M (state elt) A) (k : A -> M (state elt) B) st :
  only_destination_written st (snd (m st)) ->
  (forall a st', only_destination_written st' (snd (k a st'))) ->
  only_destination_written st (snd (bind m k st)).
Proof.
  intros Hm Hk. unfold bind. destruct (m st) as [[a|x] st'] eqn:E; cbn in *.
  - eapply only_destination_written_trans; [exact Hm | apply Hk].
  - exact Hm.
Qed.

Lemma copy_entry_frame e st :
  only_destination_written st (snd (copy_entry accepts numpy_accepts e st)).
Proof.
  destruct e as [th_name pd_name]. unfold copy_entry.
  apply bind_frame; [apply only_destination_written_refl|]. intros thp st1.
  apply bind_frame; [apply only_destination_written_refl|]. intros pdp st2.
  destruct (dict_mem thp th_name && dict_mem pdp pd_name).
  - destruct (endswith th_name _); apply _set_value_frame.
  - apply bind_frame.
    + destruct (_ && _); [apply _set_value_frame
                         | apply only_destination_written_refl].
    + intros _ st3.
      destruct (_ && _); [apply _set_value_frame
                         | apply only_destination_written_refl].
Qed.

Lemma copy_values_cons e mapping st :
  copy_values accepts numpy_accepts (e :: mapping) st =
    match copy_entry accepts numpy_accepts e st with
    | (Ok _, st') => copy_values accepts numpy_accepts mapping st'
    | (Raise x, st') => (Raise x, st')
    end.
Proof. reflexivity. Qed.

Lemma copy_values_app pre post st :
  copy_values accepts numpy_accepts (pre ++ post) st =
    match copy_values accepts numpy_accepts pre st with
    | (Ok _, st') => copy_values accepts numpy_accepts post st'
    | (Raise x, st') => (Raise x, st')
    end.
Proof.
  revert st. induction pre as [|e pre IH]; intros st.
  - reflexivity.
  - cbn [app]. rewrite !copy_values_cons.
    destruct (copy_entry accepts numpy_accepts e st) as [[[]|x] st'];
      [apply IH | reflexivity].
Qed.

Lemma for_each_frame {A} (body : A -> M (state elt) unit) xs st :
  (forall x st', only_destination_written st' (snd (body x st'))) ->
  only_destination_written st (snd (for_each xs body st)).
Proof.
  intros Hbody. revert st. induction xs as [|x xs IH]; intros st.
  - apply only_destination_written_refl.
  - cbn [for_each]. apply bind_frame; [apply Hbody | intros _ st'; apply IH].
Qed.

Lemma copy_values_frame mapping st :
  only_destination_written st
    (snd (copy_values accepts numpy_accepts mapping st)).
Proof. apply for_each_frame. intros e st'. apply copy_entry_frame. Qed.

(** C7. Whatever the mapping and the two namespaces, [copy_values] leaves
    the source namespace as it was (its bindings and the contents of every
    torch tensor), keeps every destination name bound to the same tensor
    object, and changes the contents of no paddle tensor outside the
    destination namespace: it writes destination tensors in place only.
    This holds also for a run that ends in an exception. *)
Theorem copy_values_writes_destination_only mapping st :
  th_params (snd (copy_values accepts numpy_accepts mapping st))
  = th_params st /\
  pd_params (snd (copy_values accepts numpy_accepts mapping st))
  = pd_params st /\
  th_heap (snd (copy_values accepts numpy_accepts mapping st)) = th_heap st /\
  forall l, (forall k, dict_get (pd_params st) k <> Some l) ->
    pd_heap (snd (copy_values accepts numpy_accepts mapping st)) l
    = pd_heap st l.
Proof.
  unfold copy_values.
  assert (H : only_destination_written st
                (snd (for_each mapping (copy_entry accepts numpy_accepts) st))).
  { apply for_each_frame. intros e st'. apply copy_entry_frame. }
  destruct H as (Hth & Hpd & Hheap & Hrest).
  split; [exact Hth|]. split; [exact Hpd|]. split; [exact Hheap|].
  intros l Hl. now apply Hrest.
Qed.

Lemma last_char_nonempty s : s <> EmptyString -> exists c, last_char s = Some c.
Proof.
  destruct s as [|c s]; [congruence|]. intros _. cbn.
  destruct (last_char s); eauto.
Qed.

Lemma last_char_append s t :
  t <> EmptyString -> last_char (s +:+ t) = last_char t.
Proof.
  intros Ht. induction s as [|c s IH]; [reflexivity|].
  change (last_char (String c (s +:+ t)) = last_char t). cbn [last_char].
  rewrite IH. now destruct (last_char_nonempty t Ht) as [x ->].
Qed.

Lemma endswith_last_char s suffix :
  suffix <> EmptyString -> endswith s suffix = true ->
  last_char s = last_char suffix.
Proof.
  intros Hne. induction s as [|c s IH]; cbn [endswith]; intros H.
  - rewrite orb_false_r in H. apply String.eqb_eq in H. now subst.
  - apply orb_true_iff in H as [H|H].
    + apply String.eqb_eq in H. now subst.
    + specialize (IH H). cbn [last_char]. rewrite IH.
      now destruct (last_char_nonempty suffix Hne) as [x ->].
Qed.

(** A key with the suffix [.weight] or [.bias] never names a relative
    position bias table. *)
Lemma suffixed_key_not_bias_table k :
  endswith (k +:+ ".weight") "relative_position_bias_table" = false /\
  endswith (k +:+ ".bias") "relative_position_bias_table" = false.
Proof.
  split.
  - destruct (endswith (k +:+ ".weight") _) eqn:E; [|reflexivity].
    apply endswith_last_char in E; [|discriminate].
    rewrite last_char_append in E by discriminate. discriminate E.
  - destruct (endswith (k +:+ ".bias") _) eqn:E; [|reflexivity].
    apply endswith_last_char in E; [|discriminate].
    rewrite last_char_append in E by discriminate. discriminate E.
Qed.

Lemma bind_ret_tt (m : M (state elt) unit) st :
  bind m (fun _ => ret tt) st = m st.
Proof. unfold bind, ret. now destruct (m st) as [[[]|x] st']. Qed.

(** The loop body makes exactly the calls listed by [entry_calls]. *)
Lemma copy_entry_calls e st :
  copy_entry accepts numpy_accepts e st =
    for_each (entry_calls (th_params st) (pd_params st) e)
             (fun c => _set_value accepts numpy_accepts c.1.1 c.1.2 c.2) st.
Proof.
  destruct e as [th_name pd_name]. unfold copy_entry, entry_calls.
  unfold bind at 1 2. unfold gets at 1 2. cbn [fst snd].
  destruct (dict_mem (th_params st) th_name && dict_mem (pd_params st) pd_name).
  - cbn [for_each]. rewrite bind_ret_tt. cbn [fst snd].
    now destruct (endswith th_name _).
  - destruct (dict_mem (th_params st) (th_name +:+ ".weight") && _);
      destruct (dict_mem (th_params st) (th_name +:+ ".bias") && _);
      cbn [app for_each fst snd]; unfold bind, ret;
      repeat match goal with
             | |- context [_set_value accepts numpy_accepts ?a ?b ?c ?s] =>
                 destruct (_set_value accepts numpy_accepts a b c s)
                   as [[[]|?] ?]
             end; reflexivity.
Qed.

Lemma entry_calls_present thp pdp e k_src k_dst tr :
  In (k_src, k_dst, tr) (entry_calls thp pdp e) ->
  dict_mem thp k_src = true /\ dict_mem pdp k_dst = true /\
  tr = negb (endswith k_src "relative_position_bias_table").
Proof.
  destruct e as [th_name pd_name]. unfold entry_calls.
  destruct (dict_mem thp th_name && dict_mem pdp pd_name) eqn:Hd.
  - intros [H|[]]. injection H as <- <- <-.
    apply andb_true_iff in Hd. tauto.
  - rewrite in_app_iff.
    destruct (suffixed_key_not_bias_table th_name) as [Hw Hb].
    intros [H|H].
    + destruct (dict_mem thp (th_name +:+ ".weight") && _) eqn:Hp;
        [|contradiction].
      destruct H as [H|[]]. injection H as <- <- <-.
      apply andb_true_iff in Hp. rewrite Hw. tauto.
    + destruct (dict_mem thp (th_name +:+ ".bias") && _) eqn:Hp;
        [|contradiction].
      destruct H as [H|[]]. injection H as <- <- <-.
      apply andb_true_iff in Hp. rewrite Hb. tauto.
Qed.

(** C1. The loop body of [copy_values] makes exactly the [_set_value]
    calls of [entry_calls]; each of them passes [transpose] false exactly
    when the source key ends with [relative_position_bias_table]; and after
    such a call has returned, the destination tensor holds the source array
    itself when the key ends with [relative_position_bias_table], and, when it
    does not and the source is a well-formed array of shape [(a, b)], an
    array of shape [(b, a)] whose element [(j, i)] is the source element
    [(i, j)]. *)
Theorem copy_values_transpose_rule e st :
  copy_entry accepts numpy_accepts e st =
    for_each (entry_calls (th_params st) (pd_params st) e)
             (fun c => _set_value accepts numpy_accepts c.1.1 c.1.2 c.2) st /\
  forall k_src k_dst tr,
    In (k_src, k_dst, tr) (entry_calls (th_params st) (pd_params st) e) ->
    tr = negb (endswith k_src "relative_position_bias_table") /\
    forall st1 st2 th pd,
      dict_get (th_params st1) k_src = Some th ->
      dict_get (pd_params st1) k_dst = Some pd ->
      _set_value accepts numpy_accepts k_src k_dst tr st1 = (Ok tt, st2) ->
      let src := th_heap st1 (th_storage th) in
      let value := pd_heap st2 pd in
      (endswith k_src "relative_position_bias_table" = true -> value = src) /\
      (endswith k_src "relative_position_bias_table" = false ->
       forall a b, shape src = [a; b] -> ndarray_wf src ->
         shape value = [b; a] /\
         forall i j, i < a -> j < b ->
           item value [j; i] = item src [i; j] /\ is_Some (item src [i; j])).
Proof.
  split; [apply copy_entry_calls|].
  intros k_src k_dst tr Hin.
  destruct (entry_calls_present _ _ _ _ _ _ Hin) as (_ & _ & Htr).
  split; [exact Htr|].
  intros st1 st2 th pd Hth Hpd Hrun src value.
  rewrite (_set_value_run _ _ _ _ th pd Hth Hpd) in Hrun.
  destruct (readable numpy_accepts th); [|discriminate].
  unfold Tensor_set_value in Hrun. cbn [print modify snd pd_heap] in Hrun.
  destruct (accepts _ _); [|discriminate].
  injection Hrun as <-.
  assert (Hval : value = prepared src tr).
  { subst value. unfold set_pd_heap. cbn [pd_heap].
    apply fn_lookup_insert. }
  rewrite Hval, Htr. unfold prepared. split.
  - intros ->. cbn [negb]. now rewrite andb_false_r.
  - intros -> a b Hs Hwf. cbn [negb]. rewrite andb_true_r.
    unfold ndim. rewrite Hs. cbn [length Nat.eqb].
    destruct (transpose_defined src) as [v Hv];
      [unfold ndim; now rewrite Hs|].
    rewrite Hv.
    destruct (transpose_spec src v a b Hs Hwf Hv) as (Hsv & _ & Hit).
    split; [exact Hsv | exact Hit].
Qed.

Lemma unmatched_no_calls st e :
  unmatched st e -> entry_calls (th_params st) (pd_params st) e = [].
Proof.
  destruct e as [th_name pd_name]. unfold unmatched, entry_calls.
  intros (-> & -> & ->). reflexivity.
Qed.

Lemma unmatched_stable st st' e :
  only_destination_written st st' -> unmatched st e -> unmatched st' e.
Proof.
  intros (H1 & H2 & _) H. destruct e as [th_name pd_name].
  unfold unmatched in *. now rewrite H1, H2.
Qed.

(** C8. An entry none of whose key pairs exists on both sides is skipped:
    the loop body returns without an exception and leaves the state as it
    was, and the run over a mapping that contains the entry is the run over
    the mapping without it, so the entries after it are processed as
    usual. *)
Theorem copy_values_skips_unmatched pre e post st :
  unmatched st e ->
  copy_entry accepts numpy_accepts e st = (Ok tt, st) /\
  copy_values accepts numpy_accepts (e :: post) st
  = copy_values accepts numpy_accepts post st /\
  copy_values accepts numpy_accepts (pre ++ e :: post) st
  = copy_values accepts numpy_accepts (pre ++ post) st.
Proof.
  intros Hun.
  assert (Hskip : forall st', unmatched st' e ->
                    copy_entry accepts numpy_accepts e st' = (Ok tt, st')).
  { intros st' H. rewrite copy_entry_calls, (unmatched_no_calls _ _ H).
    reflexivity. }
  split; [now apply Hskip|]. split.
  - rewrite copy_values_cons, Hskip by exact Hun. reflexivity.
  - rewrite !copy_values_app.
    pose proof (copy_values_frame pre st) as Hfr.
    destruct (copy_values accepts numpy_accepts pre st) as [[[]|x] st'];
      [|reflexivity].
    cbn [snd] in Hfr.
    rewrite copy_values_cons, Hskip; [reflexivity|].
    eapply unmatched_stable; eassumption.
Qed.

Lemma _set_value_outcome k_src k_dst tr st th pd :
  dict_get (th_params st) k_src = Some th ->
  dict_get (pd_params st) k_dst = Some pd ->
  fst (_set_value accepts numpy_accepts k_src k_dst tr st) =
    if readable numpy_accepts th
    then if accepts (pd_heap st pd) (prepared (th_heap st (th_storage th)) tr)
         then Ok tt else Raise SetValueError
    else Raise NumpyError.
Proof.
  intros Hth Hpd. rewrite (_set_value_run _ _ _ _ th pd Hth Hpd).
  destruct (readable numpy_accepts th); [|reflexivity].
  unfold Tensor_set_value. cbn [print modify snd pd_heap].
  now destruct (accepts _ _).
Qed.

Lemma calls_ok_or_rejected thp pdp e st calls :
  th_params st = thp -> pd_params st = pdp ->
  (forall c, In c calls -> In c (entry_calls thp pdp e)) ->
  ok_or_rejected accepts numpy_accepts
    (fst (for_each calls
            (fun c => _set_value accepts numpy_accepts c.1.1 c.1.2 c.2) st)).
Proof.
  revert st. induction calls as [|[[k_src k_dst] tr] calls IH];
    intros st Hthp Hpdp Hsub.
  - now left.
  - cbn [for_each]. unfold bind. cbn [fst snd].
    destruct (entry_calls_present thp pdp e k_src k_dst tr) as (Hs & Hd & _);
      [apply Hsub; now left|].
    apply dict_mem_true in Hs as [th Hth]. apply dict_mem_true in Hd as [pd Hpd].
    subst thp pdp.
    pose proof (_set_value_outcome k_src k_dst tr st th pd Hth Hpd) as Hout.
    pose proof (_set_value_frame k_src k_dst tr st) as (F1 & F2 & _).
    destruct (_set_value accepts numpy_accepts k_src k_dst tr st)
      as [[[]|x] st']; cbn [fst snd] in *.
    + apply IH; [congruence | congruence |].
      intros c Hc. apply Hsub. now right.
    + right. unfold readable in Hout.
      destruct (numpy_accepts _) eqn:Hnp.
      * destruct (accepts _ _) eqn:Hacc; [discriminate|].
        injection Hout as ->. left. split; [reflexivity | eauto].
      * injection Hout as ->. right. split; [reflexivity | eauto].
Qed.

Lemma copy_entry_ok_or_rejected e st :
  ok_or_rejected accepts numpy_accepts
    (fst (copy_entry accepts numpy_accepts e st)).
Proof.
  rewrite copy_entry_calls.
  apply (calls_ok_or_rejected (th_params st) (pd_params st) e); auto.
Qed.

Lemma copy_values_ok_or_rejected mapping st :
  ok_or_rejected accepts numpy_accepts
    (fst (copy_values accepts numpy_accepts mapping st)).
Proof.
  revert st. induction mapping as [|e mapping IH]; intros st.
  - now left.
  - rewrite copy_values_cons.
    pose proof (copy_entry_ok_or_rejected e st) as He.
    destruct (copy_entry accepts numpy_accepts e st) as [[[]|x] st'];
      cbn [fst] in *.
    + apply IH.
    + exact He.
Qed.

(** C9. [copy_values] validates no shape.  The loop runs its body on the
    entries in order and stops at the first exception; the body makes the
    calls of [entry_calls], each on keys that exist on both sides; such a
    call logs its line, asks torch for the source array and, when torch
    hands it out, passes the prepared array to [set_value] of the
    destination tensor whatever the two shapes: the call ends as [set_value]
    decides, and when [set_value] takes the array the destination holds it.
    No statement of the loop compares shapes, so a run raises nothing but
    the refusal of [numpy], met before the write, or the rejection of
    [set_value]; when both take everything no run raises. *)
Theorem copy_values_no_shape_check mapping st :
  (forall e post st1,
      copy_values accepts numpy_accepts (e :: post) st1 =
        match copy_entry accepts numpy_accepts e st1 with
        | (Ok _, st2) => copy_values accepts numpy_accepts post st2
        | (Raise x, st2) => (Raise x, st2)
        end) /\
  (forall e st1,
      copy_entry accepts numpy_accepts e st1 =
        for_each (entry_calls (th_params st1) (pd_params st1) e)
                 (fun c => _set_value accepts numpy_accepts c.1.1 c.1.2 c.2)
                 st1 /\
      forall c, In c (entry_calls (th_params st1) (pd_params st1) e) ->
        dict_mem (th_params st1) c.1.1 = true /\
        dict_mem (pd_params st1) c.1.2 = true) /\
  (forall k_src k_dst tr th pd st1,
      dict_get (th_params st1) k_src = Some th ->
      dict_get (pd_params st1) k_dst = Some pd ->
      let src := th_heap st1 (th_storage th) in
      let logged :=
        snd (print (SetLine k_src (shape src) k_dst (shape (pd_heap st1 pd)))
                   st1) in
      _set_value accepts numpy_accepts k_src k_dst tr st1 =
        if readable numpy_accepts th
        then if accepts (pd_heap st1 pd) (prepared src tr)
             then (Ok tt,
                   set_pd_heap (<[pd := prepared src tr]> (pd_heap st1)) logged)
             else (Raise SetValueError, logged)
        else (Raise NumpyError, logged)) /\
  (forall x, fst (copy_values accepts numpy_accepts mapping st) = Raise x ->
             x = SetValueError \/ x = NumpyError) /\
  ((forall old v, accepts old v = true) ->
   (forall t, numpy_accepts t = true) ->
   fst (copy_values accepts numpy_accepts mapping st) = Ok tt).
Proof.
  split; [intros e post st1; apply copy_values_cons|].
  split; [|split].
  - intros e st1. split; [apply copy_entry_calls|].
    intros [[k_src k_dst] tr] Hc.
    destruct (entry_calls_present _ _ _ _ _ _ Hc) as (H1 & H2 & _).
    now split.
  - intros k_src k_dst tr th pd st1 Hth Hpd src logged.
    rewrite (_set_value_run _ _ _ _ th pd Hth Hpd).
    destruct (readable numpy_accepts th); [|reflexivity].
    unfold Tensor_set_value. subst logged src.
    cbn [print modify snd pd_heap].
    now destruct (accepts _ _).
  - destruct (copy_values_ok_or_rejected mapping st)
      as [H|[[H (old & v & Hrej)]|[H (t & Hrej)]]].
    + split; [intros x Hx; congruence | intros _ _; exact H].
    + split; [intros x Hx; left; congruence|].
      intros Hall _. rewrite Hall in Hrej. discriminate.
    + split; [intros x Hx; right; congruence|].
      intros _ Hall. rewrite Hall in Hrej. discriminate.
Qed.

Lemma for_each_app {A} (xs ys : list A) (body : A -> M (state elt) unit) st :
  for_each (xs ++ ys) body st =
    match for_each xs body st with
    | (Ok _, st') => for_each ys body st'
    | (Raise x, st') => (Raise x, st')
    end.
Proof.
  revert st. induction xs as [|x xs IH]; intros st; [reflexivity|].
  cbn [app for_each]. unfold bind.
  destruct (body x st) as [[[]|z] st']; [apply IH | reflexivity].
Qed.

Lemma calls_as_writes thp pdp thh e calls st :
  th_params st = thp -> pd_params st = pdp -> th_heap st = thh ->
  (forall c, In c calls -> In c (entry_calls thp pdp e)) ->
  for_each calls (fun c => _set_value accepts numpy_accepts c.1.1 c.1.2 c.2) st =
  for_each (flat_map (resolve_call thp pdp thh) calls) (run_write accepts numpy_accepts) st.
Proof.
  revert st. induction calls as [|[[k_src k_dst] tr] calls IH];
    intros st Hthp Hpdp Hthh Hsub; [reflexivity|].
  cbn [for_each flat_map fst snd].
  destruct (entry_calls_present thp pdp e k_src k_dst tr) as (Hs & Hd & _);
    [apply Hsub; now left|].
  apply dict_mem_true in Hs as [th Hth]. apply dict_mem_true in Hd as [pd Hpd].
  unfold resolve_call at 1. rewrite Hth, Hpd. cbn [app for_each].
  subst thp pdp thh. unfold bind.
  pose proof (_set_value_frame k_src k_dst tr st) as (F1 & F2 & F3 & _).
  rewrite (_set_value_run _ _ _ _ th pd Hth Hpd) in *.
  unfold run_write at 1.
  cbn [w_loc w_value w_src w_src_shape w_dst w_tensor].
  destruct (readable numpy_accepts th); [|reflexivity].
  destruct (Tensor_set_value accepts pd _ _) as [[[]|x] st'];
    [|reflexivity].
  cbn [snd] in F1, F2, F3.
  apply IH; try assumption.
  intros c Hc. apply Hsub. now right.
Qed.

(** The copy loop performs the writes of its plan, which is fixed by the
    keys of the two namespaces and the contents of the source. *)
Lemma copy_values_plan mapping st :
  copy_values accepts numpy_accepts mapping st =
    for_each (write_plan (th_params st) (pd_params st) (th_heap st) mapping)
             (run_write accepts numpy_accepts) st.
Proof.
  revert st. induction mapping as [|e mapping IH]; intros st; [reflexivity|].
  rewrite copy_values_cons. unfold write_plan. cbn [flat_map].
  rewrite for_each_app.
  rewrite <- (calls_as_writes _ _ _ e) by auto.
  rewrite <- copy_entry_calls.
  pose proof (copy_entry_frame e st) as (F1 & F2 & F3 & _).
  destruct (copy_entry accepts numpy_accepts e st) as [[[]|x] st']; [|reflexivity].
  cbn [snd] in F1, F2, F3. rewrite IH, F1, F2, F3. reflexivity.
Qed.

Lemma run_write_cases w st :
  exists st1,
    run_write accepts numpy_accepts w st =
      (if readable numpy_accepts (w_tensor w)
       then if accepts (pd_heap st (w_loc w)) (w_value w)
            then Ok tt else Raise SetValueError
       else Raise NumpyError, st1) /\
    pd_heap st1 =
      if readable numpy_accepts (w_tensor w)
         && accepts (pd_heap st (w_loc w)) (w_value w)
      then <[w_loc w := w_value w]> (pd_heap st) else pd_heap st.
Proof.
  unfold run_write, Tensor_set_value. cbn [print modify snd pd_heap].
  destruct (readable _ _); [|eexists; split; reflexivity].
  destruct (accepts _ _); eexists; split; reflexivity.
Qed.

(** Two runs of the same writes from stores on which [set_value] decides
    alike end alike, and agree on every tensor one of them has written. *)
Lemma writes_agree ws st st' :
  same_acceptance accepts (pd_heap st) (pd_heap st') ->
  fst (for_each ws (run_write accepts numpy_accepts) st)
  = fst (for_each ws (run_write accepts numpy_accepts) st') /\
  forall l,
    pd_heap (snd (for_each ws (run_write accepts numpy_accepts) st)) l
    = pd_heap (snd (for_each ws (run_write accepts numpy_accepts) st')) l \/
    (pd_heap (snd (for_each ws (run_write accepts numpy_accepts) st)) l = pd_heap st l /\
     pd_heap (snd (for_each ws (run_write accepts numpy_accepts) st')) l = pd_heap st' l).
Proof.
  revert st st'. induction ws as [|w ws IH]; intros st st' Hacc.
  - split; [reflexivity | intros l; now right].
  - cbn [for_each]. unfold bind.
    destruct (run_write_cases w st) as (s1 & -> & H1).
    destruct (run_write_cases w st') as (s2 & -> & H2).
    rewrite <- (Hacc (w_loc w) (w_value w)) in *.
    destruct (readable numpy_accepts (w_tensor w)).
    2:{ cbn [fst snd]. rewrite H1, H2.
        split; [reflexivity | intros l; now right]. }
    cbn [andb] in H1, H2.
    destruct (accepts (pd_heap st (w_loc w)) (w_value w)).
    2:{ cbn [fst snd]. rewrite H1, H2.
        split; [reflexivity | intros l; now right]. }
    destruct (IH s1 s2) as [Hr Hl].
    { intros l x. rewrite H1, H2.
      destruct (decide (w_loc w = l)) as [<-|Hne].
      - now rewrite !fn_lookup_insert.
      - rewrite !fn_lookup_insert_ne by exact Hne. apply Hacc. }
    split; [exact Hr|].
    intros l. destruct (Hl l) as [H|[E1 E2]]; [now left|].
    rewrite H1 in E1. rewrite H2 in E2.
    destruct (decide (w_loc w = l)) as [<-|Hne].
    + left. rewrite E1, E2. now rewrite !fn_lookup_insert.
    + right. rewrite E1, E2. now rewrite !fn_lookup_insert_ne by exact Hne.
Qed.

(** A run keeps the decisions of a symmetric and transitive check. *)
Lemma writes_keep_acceptance ws st :
  (forall x y, accepts x y = true -> accepts y x = true) ->
  (forall x y z, accepts x y = true -> accepts y z = true ->
                 accepts x z = true) ->
  same_acceptance accepts (pd_heap st)
    (pd_heap (snd (for_each ws (run_write accepts numpy_accepts) st))).
Proof.
  intros Hsym Htrans. revert st. induction ws as [|w ws IH]; intros st.
  - intros l x. reflexivity.
  - cbn [for_each]. unfold bind.
    destruct (run_write_cases w st) as (s1 & -> & H1).
    destruct (readable numpy_accepts (w_tensor w)).
    2:{ intros l x. cbn [snd]. now rewrite H1. }
    cbn [andb] in H1.
    destruct (accepts (pd_heap st (w_loc w)) (w_value w)) eqn:Hacc.
    2:{ intros l x. cbn [snd]. now rewrite H1. }
    intros l x. rewrite <- (IH s1 l x). rewrite H1.
    destruct (decide (w_loc w = l)) as [<-|Hne].
    + rewrite fn_lookup_insert.
      destruct (accepts (pd_heap st (w_loc w)) x) eqn:E1;
        destruct (accepts (w_value w) x) eqn:E2; try reflexivity.
      * rewrite <- E2. symmetry. eapply Htrans; [apply Hsym|]; eassumption.
      * rewrite <- E1. eapply Htrans; eassumption.
    + now rewrite fn_lookup_insert_ne by exact Hne.
Qed.

(** C6. When the check of [set_value] is symmetric and transitive (as
    equality of shapes is), running [copy_values] a second time with the
    same mapping and source ends as the first run did and leaves the
    destination namespace as the first run left it: the same bindings and,
    in every paddle tensor, the same contents. *)
Theorem copy_values_idempotent mapping st :
  (forall x y, accepts x y = true -> accepts y x = true) ->
  (forall x y z, accepts x y = true -> accepts y z = true ->
                 accepts x z = true) ->
  let once := copy_values accepts numpy_accepts mapping st in
  let twice := copy_values accepts numpy_accepts mapping (snd once) in
  fst twice = fst once /\
  pd_params (snd twice) = pd_params (snd once) /\
  forall l, pd_heap (snd twice) l = pd_heap (snd once) l.
Proof.
  intros Hsym Htrans once twice.
  pose proof (copy_values_frame mapping st)
    as (F1 & F2 & F3 & _). fold once in F1, F2, F3.
  pose proof (copy_values_frame mapping (snd once))
    as (G1 & G2 & G3 & _). fold twice in G1, G2, G3.
  split; [|split; [exact G2|]].
  - subst twice once. rewrite (copy_values_plan mapping (snd _)).
    rewrite F1, F2, F3. rewrite (copy_values_plan mapping st).
    set (ws := write_plan _ _ _ _).
    destruct (writes_agree ws st (snd (for_each ws (run_write accepts numpy_accepts) st)))
      as [Hr _]; [now apply writes_keep_acceptance|].
    now rewrite <- Hr.
  - intros l. subst twice once. rewrite (copy_values_plan mapping (snd _)).
    rewrite F1, F2, F3. rewrite (copy_values_plan mapping st).
    set (ws := write_plan _ _ _ _).
    destruct (writes_agree ws st (snd (for_each ws (run_write accepts numpy_accepts) st)))
      as [_ Hl]; [now apply writes_keep_acceptance|].
    destruct (Hl l) as [H|[_ H]]; [now rewrite <- H | exact H].
Qed.

End ConvertFacts.

(** ** Properties of the missing-key report *)

Section MissingKeyFacts.

(** C4, at the checkpoint [ex_state]. The torch buffer
    [layers.0.blocks.0.attn.relative_position_index] is a key of the source
    namespace, matches no source path of the mapping, carries neither
    suffix, and yet is absent from the first list of the report. *)
Lemma compute_missing_keys_omits_unsuffixed_key :
  let key := "layers.0.blocks.0.attn.relative_position_index" in
  dict_mem (th_params ex_state) key = true /\
  list_mem key (map fst swin_mapping) = false /\
  endswith key ".weight" = false /\ endswith key ".bias" = false /\
  exists missing_keys_th missing_keys_pd,
    fst (compute_missing_keys swin_mapping ex_state)
    = Ok (missing_keys_th, missing_keys_pd) /\
    list_mem key missing_keys_th = false.
Proof.
  intros key. repeat split; try reflexivity.
  exists ["foo.weight"], []. split; reflexivity.
Qed.

(** C5, at the checkpoint [ex_state]. The paddle key [foo.weight] matches
    no destination path of the mapping, with or without its suffix, and the
    report puts it in the first list, the one printed as
    [missing_keys_pytorch]; the second list is empty. *)
Lemma compute_missing_keys_files_paddle_key_first :
  dict_mem (pd_params ex_state) "foo.weight" = true /\
  list_mem "foo" (map snd swin_mapping) = false /\
  list_mem "foo.weight" (map snd swin_mapping) = false /\
  fst (compute_missing_keys swin_mapping ex_state)
  = Ok (["foo.weight"], []).
Proof. repeat split; reflexivity. Qed.

Lemma th_key_step_reports th_keys acc key :
  th_key_step th_keys acc key
  = if th_reports th_keys key then acc ++ [key] else acc.
Proof.
  unfold th_key_step, th_reports.
  destruct (list_mem key th_keys), (endswith key ".weight"),
    (endswith key ".bias"), (list_mem (drop_last 7 key) th_keys),
    (list_mem (drop_last 5 key) th_keys); reflexivity.
Qed.

Lemma pd_key_step_reports pd_keys acc key :
  pd_key_step pd_keys acc key
  = if pd_reports pd_keys key then acc ++ [key] else acc.
Proof.
  unfold pd_key_step, pd_reports.
  destruct (list_mem key pd_keys), (endswith key ".weight"),
    (endswith key ".bias"), (list_mem (drop_last 7 key) pd_keys),
    (list_mem (drop_last 5 key) pd_keys); reflexivity.
Qed.

Lemma fold_left_reports (step : list string -> string -> list string)
    (reports : string -> bool) keys acc :
  (forall acc key, step acc key = if reports key then acc ++ [key] else acc) ->
  fold_left step keys acc = acc ++ List.filter reports keys.
Proof.
  intros Hstep. revert acc. induction keys as [|k keys IH]; intros acc.
  - cbn. now rewrite app_nil_r.
  - cbn [fold_left List.filter]. rewrite IH, Hstep.
    destruct (reports k); [now rewrite <- app_assoc | reflexivity].
Qed.

(** The report, in full. For a non-empty mapping [compute_missing_keys]
    returns, as its first list, the torch keys reported by the first loop
    followed by the paddle keys reported by the second loop, and as its
    second list the empty list. *)
Theorem compute_missing_keys_report {elt} mapping (st : state elt) :
  mapping <> [] ->
  fst (compute_missing_keys mapping st)
  = Ok (List.filter (th_reports (map fst mapping)) (dict_keys (th_params st))
        ++ List.filter (pd_reports (map snd mapping)) (dict_keys (pd_params st)),
        []).
Proof.
  intros Hne. unfold compute_missing_keys, zip_star.
  destruct mapping as [|e mapping]; [congruence|].
  unfold bind, list_getitem, gets, print, modify, ret. cbn [lookup fst snd].
  cbn.
  rewrite (fold_left_reports (pd_key_step (e.2 :: map snd mapping))
             (pd_reports (e.2 :: map snd mapping)))
    by (intros; apply pd_key_step_reports).
  rewrite (fold_left_reports (th_key_step (e.1 :: map fst mapping))
             (th_reports (e.1 :: map fst mapping)))
    by (intros; apply th_key_step_reports).
  reflexivity.
Qed.

Lemma compute_missing_keys_report_swin :
  fst (compute_missing_keys swin_mapping ex_state) = Ok (["foo.weight"], []).
Proof.
  rewrite compute_missing_keys_report; [reflexivity | discriminate].
Defined.

End MissingKeyFacts.

(** ** The copy loop on the small checkpoint *)

Section ConvertExamples.

Lemma same_shape_sym {elt} (x y : ndarray elt) :
  same_shape x y = true -> same_shape y x = true.
Proof.
  unfold same_shape. intros H. apply bool_decide_eq_true in H.
  apply bool_decide_eq_true. congruence.
Qed.

Lemma same_shape_trans {elt} (x y z : ndarray elt) :
  same_shape x y = true -> same_shape y z = true -> same_shape x z = true.
Proof.
  unfold same_shape. intros H1 H2.
  apply bool_decide_eq_true in H1. apply bool_decide_eq_true in H2.
  apply bool_decide_eq_true. congruence.
Qed.

(** C1 on [ex_state]: the 2 by 3 weight of [head] lands in [fc.weight] as a
    3 by 2 array with element [(2, 1)] equal to the source element [(1, 2)],
    and the 2 by 2 bias table is stored as it is. *)
Lemma copy_values_transpose_rule_head :
  let st_w := snd (_set_value same_shape host_tensors "head.weight" "fc.weight" true ex_state) in
  let table := "layers.0.blocks.0.attn.relative_position_bias_table" in
  let st_t := snd (_set_value same_shape host_tensors table
                     "stages.0.blocks.0.attn.relative_position_bias_table"
                     false ex_state) in
  (shape (pd_heap st_w 0) = [3; 2] /\
   item (pd_heap st_w 0) [2; 1] = item ex_weight [1; 2]) /\
  pd_heap st_t 2 = ex_table.
Proof.
  intros st_w table st_t. split.
  - destruct (copy_values_transpose_rule same_shape host_tensors ("head", "fc") ex_state)
      as [_ H].
    destruct (H "head.weight" "fc.weight" true) as [_ Hw].
    { vm_compute. tauto. }
    destruct (Hw ex_state st_w {| is_Parameter := true; th_storage := 0 |} 0
                 eq_refl eq_refl eq_refl) as [_ Ht].
    destruct (Ht eq_refl 2 3 eq_refl eq_refl) as [Hs Hi].
    split; [exact Hs | apply (Hi 1 2); lia].
  - destruct (copy_values_transpose_rule same_shape host_tensors
                (table, "stages.0.blocks.0.attn.relative_position_bias_table")
                ex_state) as [_ H].
    destruct (H table "stages.0.blocks.0.attn.relative_position_bias_table"
                false) as [_ Hw].
    { vm_compute. tauto. }
    destruct (Hw ex_state st_t {| is_Parameter := true; th_storage := 2 |} 2
                 eq_refl eq_refl eq_refl) as [Ht _].
    exact (Ht eq_refl).
Defined.

(** C6 on [ex_state] with the Swin mapping and the shape check. *)
Lemma copy_values_idempotent_swin :
  let once := copy_values same_shape host_tensors swin_mapping ex_state in
  let twice := copy_values same_shape host_tensors swin_mapping (snd once) in
  fst twice = fst once /\
  pd_params (snd twice) = pd_params (snd once) /\
  pd_heap (snd twice) 0 = pd_heap (snd once) 0.
Proof.
  intros once twice.
  destruct (copy_values_idempotent same_shape host_tensors swin_mapping ex_state
              same_shape_sym same_shape_trans) as (H1 & H2 & H3).
  split; [exact H1|]. split; [exact H2 | exact (H3 0)].
Defined.

(** C8 on [ex_state]: neither side has a key for the entry [norm]. *)
Lemma copy_values_skips_unmatched_norm :
  copy_entry same_shape host_tensors ("norm", "norm") ex_state = (Ok tt, ex_state) /\
  copy_values same_shape host_tensors [("head", "fc"); ("norm", "norm"); ("head", "fc")]
              ex_state
  = copy_values same_shape host_tensors [("head", "fc"); ("head", "fc")] ex_state.
Proof.
  destruct (copy_values_skips_unmatched same_shape host_tensors [("head", "fc")]
              ("norm", "norm") [("head", "fc")] ex_state) as (H1 & _ & H3).
  - repeat split; reflexivity.
  - split; [exact H1 | exact H3].
Defined.

(** C9 on [ex_state_mismatch], whose [fc.weight] has shape [5]: with a
    [set_value] that takes everything the run succeeds and leaves the 3 by 2
    transpose of the torch weight in that tensor; with the shape check the
    write is still attempted, and rejected only inside [set_value]. *)
Lemma copy_values_no_shape_check_mismatch :
  let run := copy_values (fun _ _ => true) host_tensors swin_mapping
               ex_state_mismatch in
  shape (pd_heap ex_state_mismatch 0) = [5] /\
  fst run = Ok tt /\
  shape (pd_heap (snd run) 0) = [3; 2] /\
  fst (_set_value same_shape host_tensors "head.weight" "fc.weight" true
         ex_state_mismatch)
  = Raise SetValueError.
Proof.
  intros run. split; [reflexivity|]. split; [|split].
  - destruct (copy_values_no_shape_check (fun _ _ => true) host_tensors
                swin_mapping ex_state_mismatch) as (_ & _ & _ & _ & H).
    apply H; reflexivity.
  - reflexivity.
  - destruct (copy_values_no_shape_check same_shape host_tensors swin_mapping
                ex_state_mismatch) as (_ & _ & H & _).
    rewrite (H "head.weight" "fc.weight" true
               {| is_Parameter := true; th_storage := 0 |} 0
               ex_state_mismatch eq_refl eq_refl).
    reflexivity.
Defined.

(** C9, as stated, fails when torch refuses the source array: the entry
    [head] has its keys on both sides and [set_value] takes everything, yet
    the run ends in the exception of [numpy], before any write. *)
Lemma copy_values_fails_before_write :
  ~ fails_only_in_set_value (fun _ _ => true) device_tensors swin_mapping
      ex_state.
Proof.
  intros H. specialize (H NumpyError eq_refl). discriminate H.
Qed.

End ConvertExamples.

(** ** Properties of [trunc_normal_] *)

Section TruncNormalFacts.
Context {elt rng : Type}.
Variable math_erf : float -> float.
Variable uniform_kernel : rng -> list nat -> float -> float -> ndarray elt * rng.
Variable erf_kernel : ndarray elt -> ndarray elt.
Variable multiply_kernel : ndarray elt -> ndarray elt -> ndarray elt.
Variable add_kernel : ndarray elt -> ndarray elt -> ndarray elt.
Variable clip_kernel : float -> float -> ndarray elt -> ndarray elt.
Variable to_tensor_kernel : float -> ndarray elt.

Implicit Types (st : runtime elt rng).

Lemma tensors_preserved_refl st : tensors_preserved st st.
Proof. split; [lia | reflexivity]. Qed.

Lemma tensors_preserved_same st st' :
  tensors st' = tensors st -> next_id st' = next_id st ->
  tensors_preserved st st'.
Proof. intros Ht Hn. split; [lia | intros l _; now rewrite Ht]. Qed.

Lemma tensors_preserved_trans st1 st2 st3 :
  tensors_preserved st1 st2 -> tensors_preserved st2 st3 ->
  tensors_preserved st1 st3.
Proof.
  intros [A1 A2] [B1 B2]. split; [lia|].
  intros l Hl. rewrite B2 by lia. now apply A2.
Qed.

Lemma keeps_bind {A B} (m : M (runtime elt rng) A) (k : A -> M (runtime elt rng) B) :
  keeps m -> (forall a, keeps (k a)) -> keeps (bind m k).
Proof.
  intros Hm Hk st. unfold bind. specialize (Hm st).
  destruct (m st) as [[a|x] st']; cbn [snd] in *; [|exact Hm].
  eapply tensors_preserved_trans; [exact Hm | apply Hk].
Qed.


Lemma keeps_ret {A} (a : A) : keeps (@ret (runtime elt rng) A a).
Proof. intros st. apply tensors_preserved_refl. Qed.

Lemma keeps_raise {A} x : keeps (@raise (runtime elt rng) A x).
Proof. intros st. apply tensors_preserved_refl. Qed.

Lemma keeps_gets {A} (f : runtime elt rng -> A) : keeps (gets f).
Proof. intros st. apply tensors_preserved_refl. Qed.

Lemma keeps_new_tensor v : keeps (@new_tensor elt rng v).
Proof.
  intros st. unfold new_tensor, tensors_preserved. cbn [snd next_id tensors].
  split; [lia|].
  intros l Hl. apply fn_lookup_insert_ne. lia.
Qed.


Lemma keeps_read t : keeps (@read_tensor elt rng t).
Proof. apply keeps_gets. Qed.

Lemma keeps_uniform shp lo hi : keeps (paddle_uniform uniform_kernel shp lo hi).
Proof.
  intros st. unfold paddle_uniform.
  destruct (uniform_kernel _ _ _ _) as [v g].
  unfold new_tensor, tensors_preserved. cbn [snd next_id tensors].
  split; [lia|].
  intros l Hl. apply fn_lookup_insert_ne. lia.
Qed.

Lemma makes_uniform shp lo hi : makes (paddle_uniform uniform_kernel shp lo hi).
Proof.
  intros st t. unfold paddle_uniform.
  destruct (uniform_kernel _ _ _ _) as [v g].
  unfold new_tensor. cbn [fst snd next_id]. intros [= <-]. lia.
Qed.

Lemma keeps_warn msg : keeps (@warn elt rng msg).
Proof. intros st. now apply tensors_preserved_same. Qed.

Lemma keeps_py_div x y : keeps (@py_div elt rng x y).
Proof. unfold py_div. destruct (y =? 0)%float; [apply keeps_raise | apply keeps_ret]. Qed.

Lemma keeps_norm_cdf x : keeps (@norm_cdf elt rng math_erf x).
Proof.
  unfold norm_cdf. apply keeps_bind; [apply keeps_py_div|].
  intros q. apply keeps_py_div.
Qed.

Lemma keeps_with_no_grad {A} (body : M (runtime elt rng) A) : keeps body -> keeps (with_no_grad body).
Proof.
  intros Hb st. unfold with_no_grad.
  specialize (Hb (set_grad_enabled false st)).
  destruct (body _) as [r st']. cbn [snd] in *.
  eapply tensors_preserved_trans; [|eapply tensors_preserved_trans].
  - apply (tensors_preserved_same st (set_grad_enabled false st)); reflexivity.
  - exact Hb.
  - now apply tensors_preserved_same.
Qed.



Lemma keeps_Tensor_shape t : keeps (@Tensor_shape elt rng t).
Proof.
  unfold Tensor_shape. apply keeps_bind; [apply keeps_read|].
  intros v. apply keeps_ret.
Qed.

Lemma keeps_to_tensor x : keeps (paddle_to_tensor (rng := rng) to_tensor_kernel x).
Proof. apply keeps_new_tensor. Qed.

Lemma keeps_Tensor_erf t : keeps (Tensor_erf (rng := rng) erf_kernel t).
Proof.
  unfold Tensor_erf. apply keeps_bind; [apply keeps_read|].
  intros v. apply keeps_new_tensor.
Qed.

Lemma keeps_Tensor_multiply t y :
  keeps (Tensor_multiply (rng := rng) multiply_kernel t y).
Proof.
  unfold Tensor_multiply. apply keeps_bind; [apply keeps_read|]. intros v.
  apply keeps_bind; [apply keeps_read|]. intros w. apply keeps_new_tensor.
Qed.

Lemma keeps_Tensor_add t y : keeps (Tensor_add (rng := rng) add_kernel t y).
Proof.
  unfold Tensor_add. apply keeps_bind; [apply keeps_read|]. intros v.
  apply keeps_bind; [apply keeps_read|]. intros w. apply keeps_new_tensor.
Qed.

Lemma keeps_Tensor_clip t lo hi :
  keeps (Tensor_clip (rng := rng) clip_kernel t lo hi).
Proof.
  unfold Tensor_clip. destruct (lo <=? hi)%float; [|apply keeps_raise].
  apply keeps_bind; [apply keeps_read|].
  intros v. apply keeps_new_tensor.
Qed.


Ltac keeps_step :=
  first [ apply keeps_py_div | apply keeps_norm_cdf | apply keeps_Tensor_shape
        | apply keeps_uniform | apply keeps_Tensor_erf | apply keeps_to_tensor
        | apply keeps_Tensor_multiply | apply keeps_Tensor_add
        | apply keeps_Tensor_clip ].

Lemma keeps_no_grad_trunc_normal_ tensor mean std a b :
  keeps (_no_grad_trunc_normal_ math_erf uniform_kernel erf_kernel
           multiply_kernel add_kernel clip_kernel to_tensor_kernel
           tensor mean std a b).
Proof.
  unfold _no_grad_trunc_normal_.
  apply keeps_bind; [destruct (_ || _); [apply keeps_warn | apply keeps_ret]|].
  intros _. apply keeps_with_no_grad.
  do 12 (apply keeps_bind; [keeps_step | intros ?]).
  apply keeps_ret.
Qed.




End TruncNormalFacts.

(** ** [trunc_normal_] on the small runtime *)

Section TruncNormalExamples.


End TruncNormalExamples.

(** ** Further properties of [torch_to_paddle_mapping] *)

Section MappingMore.

Lemma list_sum_map_scale (c : nat) (f : Z -> nat) (ds : list Z) :
  list_sum (map (fun d => c * f d) ds) = c * list_sum (map f ds).
Proof.
  unfold list_sum. induction ds as [|d ds IH]; cbn [map fold_right]; lia.
Qed.

(** X2. For every list of depths, also an empty one or one with entries
    that are zero or negative, the mapping has four fixed entries, seven per
    block of [range(d)] (none when [d <= 0]) and two per stage but the
    last. *)
Theorem torch_to_paddle_mapping_length_any model_name cfg :
  length (torch_to_paddle_mapping model_name cfg) =
    4 + 7 * list_sum (map Z.to_nat (STAGE_DEPTHS cfg))
      + 2 * (length (STAGE_DEPTHS cfg) - 1).
Proof.
  rewrite torch_to_paddle_mapping_entries.
  set (depths := STAGE_DEPTHS cfg). set (n := length depths).
  rewrite !length_app, length_flat_map. cbn [length].
  rewrite (map_ext _ (fun s => 7 * Z.to_nat (nth s depths 0%Z)
             + (if (Z.of_nat s <? Z.of_nat n - 1)%Z then 2 else 0)))
    by (intros s; apply stage_entries_length).
  rewrite (list_sum_map_add (fun s => 7 * Z.to_nat (nth s depths 0%Z))).
  rewrite downsample_total.
  change (fun s => 7 * Z.to_nat (nth s depths 0%Z))
    with (fun s => (fun d => 7 * Z.to_nat d) ((fun s => nth s depths 0%Z) s)).
  rewrite <- (map_map (fun s => nth s depths 0%Z) (fun d => 7 * Z.to_nat d)).
  pose proof (nth_seq_map [] depths) as Hseq. cbn [length app] in Hseq.
  fold n in Hseq. rewrite Hseq.
  rewrite (list_sum_map_scale 7 Z.to_nat). lia.
Qed.

Lemma stage_entry_renames_root depths n s e :
  In e (stage_entries depths n s) ->
  exists r, e = ("layers." +:+ r, "stages." +:+ r).
Proof.
  unfold stage_entries. rewrite in_app_iff. intros [H|H].
  - unfold stage_block_entries in H. apply in_flat_map in H as (b & _ & H).
    unfold layer_mapping in H. cbn [In] in H.
    repeat (destruct H as [<- | H]; [
      match goal with
      | |- exists r, (_ +:+ ?sfx, _) = _ =>
          exists (fmt s +:+ ".blocks" +:+ "." +:+ fmt b +:+ sfx)
      end; now rewrite !append_assoc |]).
    contradiction.
  - destruct (Z.of_nat s <? Z.of_nat n - 1)%Z; [|contradiction].
    unfold downsample_mapping in H. cbn [In] in H.
    destruct H as [<- | [<- | []]].
    + now exists (fmt s +:+ ".downsample.reduction.weight").
    + now exists (fmt s +:+ ".downsample.norm").
Qed.

(** X3. Apart from the four fixed entries, every entry of the mapping pairs
    a torch path [layers.r] with the paddle path [stages.r] of the same
    remainder [r]: the mapping renames the root and nothing else. *)
Theorem mapping_entry_renames_root model_name cfg e :
  In e (torch_to_paddle_mapping model_name cfg) ->
  In e fixed_entries \/ exists r, e = ("layers." +:+ r, "stages." +:+ r).
Proof.
  rewrite torch_to_paddle_mapping_entries, !in_app_iff, in_flat_map.
  unfold fixed_entries. cbn [In].
  intros [H | [(s & _ & H) | H]].
  - left. tauto.
  - right. eapply stage_entry_renames_root, H.
  - left. tauto.
Qed.

Lemma mapping_entry_renames_root_swin :
  exists r, ("layers.2.blocks.5.mlp.fc2", "stages.2.blocks.5.mlp.fc2")
            = ("layers." +:+ r, "stages." +:+ r).
Proof.
  destruct (mapping_entry_renames_root "swin_base_patch4_window7_224"
              swin_config
              ("layers.2.blocks.5.mlp.fc2", "stages.2.blocks.5.mlp.fc2"))
    as [H | H].
  - vm_compute. tauto.
  - exfalso. vm_compute in H.
    repeat (destruct H as [H | H]; [discriminate H|]). exact H.
  - exact H.
Defined.

End MappingMore.

(** ** Properties of [convert] as a whole *)

Section ConvertMore.
Context {elt : Type}.
Variable accepts : ndarray elt -> ndarray elt -> bool.
Variable numpy_accepts : torch_tensor -> bool.

Implicit Types (st : state elt).

Lemma last_write_from (l : loc) (ws : list (write elt)) acc :
  fold_left (fun acc w => if Nat.eqb (w_loc w) l then Some (w_value w) else acc)
            ws acc =
    match last_write l ws with
    | Some v => Some v
    | None => acc
    end.
Proof.
  unfold last_write. revert acc.
  induction ws as [|w ws IH]; intros acc; cbn [fold_left]; [reflexivity|].
  destruct (Nat.eqb (w_loc w) l).
  - rewrite (IH (Some (w_value w))).
    now destruct (fold_left _ ws None).
  - apply IH.
Qed.

Lemma last_write_cons (l : loc) (w : write elt) ws :
  last_write l (w :: ws) =
    match last_write l ws with
    | Some v => Some v
    | None => if Nat.eqb (w_loc w) l then Some (w_value w) else None
    end.
Proof. unfold last_write at 1. cbn [fold_left]. apply last_write_from. Qed.

Lemma writes_final_contents ws st st' :
  for_each ws (run_write accepts numpy_accepts) st = (Ok tt, st') ->
  forall l, pd_heap st' l = default (pd_heap st l) (last_write l ws).
Proof.
  revert st. induction ws as [|w ws IH]; intros st Hrun l.
  - injection Hrun as <-. reflexivity.
  - cbn [for_each] in Hrun. unfold bind in Hrun.
    destruct (run_write_cases accepts numpy_accepts w st) as (s1 & E & H1).
    rewrite E in Hrun.
    destruct (readable numpy_accepts (w_tensor w)); [|discriminate].
    cbn [andb] in H1.
    destruct (accepts (pd_heap st (w_loc w)) (w_value w)); [|discriminate].
    rewrite (IH s1 Hrun l), last_write_cons, H1.
    destruct (last_write l ws); [reflexivity|]. cbn [default].
    destruct (Nat.eqb_spec (w_loc w) l) as [<-|Hne]; cbn [default].
    + apply fn_lookup_insert.
    + now apply fn_lookup_insert_ne.
Qed.

(** X4. After a run of [copy_values] that returned, every paddle tensor the
    plan writes to holds the array of the last planned write to it, and
    every other paddle tensor holds what it held before. *)
Theorem copy_values_last_write_wins mapping st st' :
  copy_values accepts numpy_accepts mapping st = (Ok tt, st') ->
  forall l,
    pd_heap st' l =
      default (pd_heap st l)
        (last_write l (write_plan (th_params st) (pd_params st) (th_heap st)
                                  mapping)).
Proof.
  rewrite copy_values_plan. apply writes_final_contents.
Qed.

Lemma dict_get_set {V} (d : dict V) k v k' :
  dict_get (dict_set d k v) k' =
    if String.eqb k k' then Some v else dict_get d k'.
Proof.
  induction d as [|[k0 v0] d IH]; cbn [dict_set dict_get].
  - reflexivity.
  - destruct (String.eqb_spec k0 k) as [->|Hne]; cbn [dict_get].
    + now destruct (String.eqb k k').
    + rewrite IH. destruct (String.eqb_spec k0 k') as [->|Hne'];
        [|reflexivity].
      destruct (String.eqb_spec k k'); [congruence | reflexivity].
Qed.

Lemma dict_get_app {V} (d1 d2 : dict V) k :
  dict_get (d1 ++ d2) k =
    match dict_get d1 k with Some v => Some v | None => dict_get d2 k end.
Proof.
  induction d1 as [|[k0 v0] d1 IH]; cbn [app dict_get]; [reflexivity|].
  now destruct (String.eqb k0 k).
Qed.

Lemma dict_get_update {V} (d : dict V) items k :
  dict_get (dict_update d items) k =
    match dict_get (rev items) k with
    | Some v => Some v
    | None => dict_get d k
    end.
Proof.
  unfold dict_update. revert d.
  induction items as [|[k0 v0] items IH]; intros d; cbn [fold_left rev].
  - reflexivity.
  - rewrite IH, dict_get_app, dict_get_set. cbn [fst snd dict_get].
    destruct (dict_get (rev items) k); [reflexivity|].
    now destruct (String.eqb k0 k).
Qed.

Lemma dict_keys_set {V} (d : dict V) k v :
  dict_keys (dict_set d k v) =
    if dict_mem d k then dict_keys d else dict_keys d ++ [k].
Proof.
  unfold dict_mem, dict_keys.
  induction d as [|[k0 v0] d IH]; cbn [dict_set dict_get map fst app].
  - reflexivity.
  - destruct (String.eqb_spec k0 k) as [->|Hne]; cbn [map fst].
    + reflexivity.
    + rewrite IH. now destruct (dict_get d k).
Qed.

Lemma dict_mem_keys {V} (d : dict V) k :
  dict_mem d k = true <-> In k (dict_keys d).
Proof.
  unfold dict_mem, dict_keys.
  induction d as [|[k0 v0] d IH]; cbn [dict_get map fst In].
  - split; [discriminate | contradiction].
  - destruct (String.eqb_spec k0 k) as [->|Hne].
    + split; auto.
    + rewrite IH. split; [auto | intros [H|H]; [congruence | exact H]].
Qed.

Lemma dict_set_NoDup {V} (d : dict V) k v :
  NoDup (dict_keys d) -> NoDup (dict_keys (dict_set d k v)).
Proof.
  intros Hd. rewrite dict_keys_set.
  destruct (dict_mem d k) eqn:Hm; [exact Hd|].
  apply list.NoDup_app. split; [exact Hd|]. split; [|apply list.NoDup_singleton].
  intros x Hx Hin. apply list_elem_of_In in Hx, Hin.
  destruct Hin as [<-|[]]. apply dict_mem_keys in Hx. congruence.
Qed.

Lemma dict_update_NoDup {V} (d : dict V) items :
  NoDup (dict_keys d) -> NoDup (dict_keys (dict_update d items)).
Proof.
  unfold dict_update. revert d.
  induction items as [|[k v] items IH]; intros d Hd; cbn [fold_left].
  - exact Hd.
  - apply IH. now apply dict_set_NoDup.
Qed.

Lemma dict_get_In {V} (d : dict V) k v :
  dict_get d k = Some v -> In (k, v) d.
Proof.
  induction d as [|[k0 v0] d IH]; cbn [dict_get In]; [discriminate|].
  destruct (String.eqb_spec k0 k) as [->|Hne].
  - intros [= ->]. now left.
  - intros H. right. now apply IH.
Qed.

Lemma namespace_of_lookup {V} (ps bs : list (string * V)) k :
  dict_get (namespace_of ps bs) k = dict_get (rev (ps ++ bs)) k.
Proof.
  unfold namespace_of. rewrite !dict_get_update, rev_app_distr, dict_get_app.
  cbn [dict_get]. now destruct (dict_get (rev bs) k), (dict_get (rev ps) k).
Qed.

Lemma namespace_of_NoDup {V} (ps bs : list (string * V)) :
  NoDup (dict_keys (namespace_of ps bs)).
Proof.
  unfold namespace_of. apply dict_update_NoDup, dict_update_NoDup.
  apply base.NoDup_nil_2.
Qed.

Lemma torch_to_paddle_mapping_nonempty model_name cfg :
  torch_to_paddle_mapping model_name cfg <> [].
Proof. rewrite torch_to_paddle_mapping_entries. discriminate. Qed.

(** The report of a non-empty mapping returns and touches only standard
    output. *)
Lemma compute_missing_keys_effect mapping st :
  mapping <> [] ->
  exists r st',
    compute_missing_keys mapping st = (Ok r, st') /\
    th_params st' = th_params st /\ pd_params st' = pd_params st /\
    th_heap st' = th_heap st /\ pd_heap st' = pd_heap st.
Proof.
  intros Hne. destruct mapping as [|e mapping]; [congruence|].
  unfold compute_missing_keys, zip_star, bind, list_getitem, gets, print,
    modify, ret.
  cbn [lookup fst snd]. cbn.
  eexists _, _. split; [reflexivity|]. repeat split.
Qed.

(** The state [convert] reaches before its copy loop, up to standard
    output. *)
Lemma convert_run torch_model_ paddle_model_ model_name cfg st :
  exists st1,
    th_params st1 = namespace_of (th_named_parameters torch_model_)
                                 (th_named_buffers torch_model_) /\
    pd_params st1 = namespace_of (pd_named_parameters paddle_model_)
                                 (pd_named_buffers paddle_model_) /\
    th_heap st1 = th_heap st /\ pd_heap st1 = pd_heap st /\
    convert accepts numpy_accepts torch_model_ paddle_model_ model_name cfg st =
      match copy_values accepts numpy_accepts (torch_to_paddle_mapping model_name cfg) st1
      with
      | (Ok _, st') => (Ok paddle_model_, st')
      | (Raise x, st') => (Raise x, st')
      end.
Proof.
  unfold convert.
  set (mapping := torch_to_paddle_mapping model_name cfg).
  unfold bind at 1 2 3 4 5 6. unfold modify. cbn [fst snd].
  match goal with
  | |- context [bind (compute_missing_keys mapping) _ ?s0] =>
      set (st0 := s0);
      destruct (compute_missing_keys_effect mapping st0
                  (torch_to_paddle_mapping_nonempty model_name cfg))
        as (r & st1 & E & H1 & H2 & H3 & H4)
  end.
  exists st1. unfold bind at 1. rewrite E.
  split; [rewrite H1; reflexivity|]. split; [rewrite H2; reflexivity|].
  split; [rewrite H3; reflexivity|]. split; [rewrite H4; reflexivity|].
  unfold bind, ret.
  now destruct (copy_values accepts numpy_accepts mapping st1) as [[[]|x] st'].
Qed.

(** X5. [convert] returns the paddle model it was given, or raises the
    refusal of [numpy] or the rejection of [set_value], and nothing else; it
    returns whenever [numpy] hands out every tensor and [set_value] takes
    every array.  Whatever the outcome, no torch tensor changes, and a
    paddle tensor changes only if it is among the named parameters and
    buffers of the paddle model. *)
Theorem convert_outcome torch_model_ paddle_model_ model_name cfg st :
  let run := convert accepts numpy_accepts torch_model_ paddle_model_
               model_name cfg st in
  (fst run = Ok paddle_model_ \/ fst run = Raise SetValueError \/
   fst run = Raise NumpyError) /\
  ((forall old v, accepts old v = true) ->
   (forall t, numpy_accepts t = true) -> fst run = Ok paddle_model_) /\
  th_heap (snd run) = th_heap st /\
  forall l,
    ~ In l (map snd (pd_named_parameters paddle_model_
                     ++ pd_named_buffers paddle_model_)) ->
    pd_heap (snd run) l = pd_heap st l.
Proof.
  intros run. subst run.
  destruct (convert_run torch_model_ paddle_model_ model_name cfg st)
    as (st1 & H1 & H2 & H3 & H4 & ->).
  set (mapping := torch_to_paddle_mapping model_name cfg).
  pose proof (copy_values_ok_or_rejected accepts numpy_accepts mapping st1)
    as Hout.
  pose proof (copy_values_frame accepts numpy_accepts mapping st1)
    as (_ & _ & F3 & F4).
  assert (Hframe : forall st', pd_heap st' = pd_heap st' ->
            (forall l, (forall k, dict_get (pd_params st1) k <> Some l) ->
                       pd_heap st' l = pd_heap st1 l) ->
            forall l,
              ~ In l (map snd (pd_named_parameters paddle_model_
                               ++ pd_named_buffers paddle_model_)) ->
              pd_heap st' l = pd_heap st l).
  { intros st' _ F l Hl. rewrite F, H4; [reflexivity|].
    intros k Hk. apply Hl. rewrite H2, namespace_of_lookup in Hk.
    apply dict_get_In, in_rev in Hk.
    apply in_map_iff. now exists (k, l). }
  destruct (copy_values accepts numpy_accepts mapping st1) as [[[]|x] st'];
    cbn [fst snd] in *.
  - split; [now left|]. split; [reflexivity|].
    split; [congruence | now apply Hframe].
  - destruct Hout as [Hout|[[Hout (old & v & Hrej)]|[Hout (t & Hrej)]]];
      [discriminate| |]; injection Hout as ->.
    + split; [right; now left|].
      split; [intros Hall _; rewrite Hall in Hrej; discriminate|].
      split; [congruence | now apply Hframe].
    + split; [right; now right|].
      split; [intros _ Hall; rewrite Hall in Hrej; discriminate|].
      split; [congruence | now apply Hframe].
Qed.

(** X6. The two dictionaries [convert] works on hold each name once, and
    resolve a name to its last registration: a buffer that shares its name
    with a parameter hides the parameter. *)
Theorem convert_namespaces torch_model_ paddle_model_ model_name cfg st :
  let st' := snd (convert accepts numpy_accepts torch_model_ paddle_model_ model_name cfg st) in
  (forall k, dict_get (th_params st') k
             = dict_get (rev (th_named_parameters torch_model_
                              ++ th_named_buffers torch_model_)) k) /\
  (forall k, dict_get (pd_params st') k
             = dict_get (rev (pd_named_parameters paddle_model_
                              ++ pd_named_buffers paddle_model_)) k) /\
  NoDup (dict_keys (th_params st')) /\
  NoDup (dict_keys (pd_params st')).
Proof.
  intros st'. subst st'.
  destruct (convert_run torch_model_ paddle_model_ model_name cfg st)
    as (st1 & H1 & H2 & _ & _ & ->).
  pose proof (copy_values_frame accepts numpy_accepts
                (torch_to_paddle_mapping model_name cfg) st1) as (F1 & F2 & _ & _).
  assert (Hth : th_params (snd (let '(o, s) := copy_values accepts numpy_accepts
                   (torch_to_paddle_mapping model_name cfg) st1 in
                   match o with
                   | Ok _ => (Ok paddle_model_, s)
                   | Raise x => (Raise x, s)
                   end)) = th_params st1 /\
                pd_params (snd (let '(o, s) := copy_values accepts numpy_accepts
                   (torch_to_paddle_mapping model_name cfg) st1 in
                   match o with
                   | Ok _ => (Ok paddle_model_, s)
                   | Raise x => (Raise x, s)
                   end)) = pd_params st1).
  { destruct (copy_values accepts numpy_accepts _ st1) as [[[]|x] s]; now cbn [snd] in *. }
  destruct Hth as [-> ->]. rewrite H1, H2.
  split; [intros k; apply namespace_of_lookup|].
  split; [intros k; apply namespace_of_lookup|].
  split; apply namespace_of_NoDup.
Qed.

End ConvertMore.

Section ConvertMoreExamples.

(** X4 on [ex_state]: after the run, [fc.weight] holds the 3 by 2
    transpose of the torch weight. *)
Lemma copy_values_last_write_wins_head :
  pd_heap (snd (copy_values same_shape host_tensors swin_mapping ex_state)) 0
  = {| shape := [3; 2]; data := [1; 4; 2; 5; 3; 6]%Z |}.
Proof.
  rewrite (copy_values_last_write_wins same_shape host_tensors swin_mapping ex_state
             (snd (copy_values same_shape host_tensors swin_mapping ex_state)));
    reflexivity.
Defined.

(** X5 and X6 on the small models: [fc.bias] resolves to the buffer, not to
    the parameter of the same name, so the parameter object 3 is not
    written. *)
Lemma convert_outcome_small :
  let run := convert same_shape host_tensors ex_torch_model ex_paddle_model
               "swin_base_patch4_window7_224" swin_config ex_state in
  fst run = Ok ex_paddle_model /\
  pd_heap (snd run) 2 = zeros [2; 2].
Proof.
  intros run.
  destruct (convert_outcome same_shape host_tensors ex_torch_model ex_paddle_model
              "swin_base_patch4_window7_224" swin_config ex_state)
    as (Hout & _ & _ & Hframe).
  split.
  - destruct Hout as [H|[H|H]]; [exact H| |]; vm_compute in H; discriminate H.
  - apply Hframe. cbn. intros [H|[H|[H|[]]]]; discriminate H.
Defined.

Lemma convert_namespaces_small :
  dict_get (pd_params (snd (convert same_shape host_tensors ex_torch_model ex_paddle_model
                              "swin_base_patch4_window7_224" swin_config
                              ex_state))) "fc.bias" = Some 1.
Proof.
  destruct (convert_namespaces same_shape host_tensors ex_torch_model ex_paddle_model
              "swin_base_patch4_window7_224" swin_config ex_state)
    as (_ & H & _ & _).
  rewrite H. reflexivity.
Defined.

End ConvertMoreExamples.

(** ** What [trunc_normal_] computes *)

Section TruncNormalMore.
Context {elt rng : Type}.
Variable math_erf : float -> float.
Variable uniform_kernel : rng -> list nat -> float -> float -> ndarray elt * rng.
Variable erf_kernel : ndarray elt -> ndarray elt.
Variable multiply_kernel : ndarray elt -> ndarray elt -> ndarray elt.
Variable add_kernel : ndarray elt -> ndarray elt -> ndarray elt.
Variable clip_kernel : float -> float -> ndarray elt -> ndarray elt.
Variable to_tensor_kernel : float -> ndarray elt.

Implicit Types (st : runtime elt rng).

Lemma insert_at (h : loc -> ndarray elt) (l : loc) v : (<[l := v]> h) l = v.
Proof. apply fn_lookup_insert. Qed.

Lemma insert_below (h : loc -> ndarray elt) (l l' : loc) v :
  l' < l -> (<[l := v]> h) l' = h l'.
Proof. intros H. apply fn_lookup_insert_ne. lia. Qed.

Lemma new_tensor_spec v st :
  exists st', new_tensor v st = (Ok (next_id st), st') /\ allocated st st' v.
Proof.
  eexists. split; [reflexivity|]. unfold allocated.
  cbn [tensors next_id generator grad_enabled warnings_log].
  rewrite insert_at. repeat split. intros l Hl. now apply insert_below.
Qed.

Lemma uniform_spec shp lo hi st :
  exists st',
    paddle_uniform uniform_kernel shp lo hi st = (Ok (next_id st), st') /\
    next_id st' = S (next_id st) /\
    tensors st' (next_id st)
    = fst (uniform_kernel (generator st) shp lo hi) /\
    (forall l, l < next_id st -> tensors st' l = tensors st l) /\
    generator st' = snd (uniform_kernel (generator st) shp lo hi) /\
    grad_enabled st' = grad_enabled st /\ warnings_log st' = warnings_log st.
Proof.
  unfold paddle_uniform. destruct (uniform_kernel _ _ _ _) as [v g].
  eexists. split; [reflexivity|].
  cbn [fst snd tensors next_id generator grad_enabled warnings_log].
  rewrite insert_at. repeat split. intros l Hl. now apply insert_below.
Qed.

(** The run of [trunc_normal_] with a non-zero [std], followed through
    the six tensors it creates before it calls [clip]. *)
Lemma trunc_normal_before_clip tensor mean std a b st :
  (std =? 0)%float = false ->
  exists s6,
    trunc_normal_ math_erf uniform_kernel erf_kernel multiply_kernel
      add_kernel clip_kernel to_tensor_kernel tensor mean std a b st
    = (let '(r, s7) := Tensor_clip clip_kernel (next_id st + 5) a b s6 in
       (r, set_grad_enabled (grad_enabled st) s7)) /\
    next_id s6 = next_id st + 6 /\
    tensors s6 (next_id st + 5)
    = add_kernel
        (multiply_kernel
           (erf_kernel
              (fst (trunc_normal_draw math_erf uniform_kernel (generator st)
                      (shape (tensors st tensor)) mean std a b)))
           (to_tensor_kernel (std * sqrt 2)%float))
        (to_tensor_kernel mean) /\
    generator s6
    = snd (trunc_normal_draw math_erf uniform_kernel (generator st)
             (shape (tensors st tensor)) mean std a b) /\
    warnings_log s6
    = warnings_log st
      ++ (if mean_out_of_range mean std a b
          then [trunc_normal_warning] else []).
Proof.
  intros Hstd.
  unfold trunc_normal_, _no_grad_trunc_normal_, norm_cdf, py_div,
    trunc_normal_draw, cdf_value, mean_out_of_range, trunc_normal_warning.
  rewrite Hstd.
  change (sqrt 2 =? 0)%float with false. change (2 =? 0)%float with false.
  set (c := (mean <? a - 2 * std)%float || (b + 2 * std <? mean)%float).
  set (msg := _ +:+ _).
  assert (Hw : exists sw,
             (if c then warn msg else ret tt) st = (Ok tt, sw) /\
             tensors sw = tensors st /\ next_id sw = next_id st /\
             generator sw = generator st /\
             grad_enabled sw = grad_enabled st /\
             warnings_log sw = warnings_log st ++ (if c then [msg] else [])).
  { destruct c; eexists; (split; [reflexivity|]);
      rewrite ?app_nil_r; repeat split. }
  destruct Hw as (sw & Ew & Wt & Wn & Wg & Wgr & Ww).
  unfold bind at 1. rewrite Ew. unfold with_no_grad.
  set (s0 := set_grad_enabled false sw).
  assert (S0 : tensors s0 = tensors st /\ next_id s0 = next_id st /\
               generator s0 = generator st /\
               warnings_log s0 = warnings_log sw) by (now subst s0).
  destruct S0 as (T0 & N0 & G0 & W0). clearbody s0.
  unfold bind, ret, Tensor_shape, read_tensor, gets.
  unfold Tensor_erf, Tensor_multiply, Tensor_add, paddle_to_tensor, bind,
    read_tensor, gets.
  cbv beta iota delta [ret].
  destruct (uniform_spec (shape (tensors s0 tensor))
              (2 * ((1 + math_erf ((a - mean) / std / sqrt 2)) / 2) - 1)
              (2 * ((1 + math_erf ((b - mean) / std / sqrt 2)) / 2) - 1) s0)
    as (s1 & E1 & N1 & V1 & K1 & G1 & _ & W1).
  rewrite E1. cbv beta iota.
  destruct (new_tensor_spec (erf_kernel (tensors s1 (next_id s0))) s1)
    as (s2 & E2 & N2 & V2 & K2 & G2 & _ & W2).
  rewrite E2. cbv beta iota.
  destruct (new_tensor_spec (to_tensor_kernel (std * sqrt 2)) s2)
    as (s3 & E3 & N3 & V3 & K3 & G3 & _ & W3).
  rewrite E3. cbv beta iota.
  destruct (new_tensor_spec
              (multiply_kernel (tensors s3 (next_id s1))
                 (tensors s3 (next_id s2))) s3)
    as (s4 & E4 & N4 & V4 & K4 & G4 & _ & W4).
  rewrite E4. cbv beta iota.
  destruct (new_tensor_spec (to_tensor_kernel mean) s4)
    as (s5 & E5 & N5 & V5 & K5 & G5 & _ & W5).
  rewrite E5. cbv beta iota.
  destruct (new_tensor_spec
              (add_kernel (tensors s5 (next_id s3))
                 (tensors s5 (next_id s4))) s5)
    as (s6 & E6 & N6 & V6 & K6 & G6 & _ & W6).
  rewrite E6. cbv beta iota.
  assert (Hn : next_id s5 = next_id st + 5)
    by (rewrite N5, N4, N3, N2, N1, N0; lia).
  exists s6. rewrite <- Hn, Wgr. split.
  { now destruct (Tensor_clip clip_kernel (next_id s5) a b s6) as [[t|e] s7]. }
  split; [lia|].
  rewrite V6, V5, (K5 (next_id s3)), V4, V3, (K3 (next_id s1)), V2, V1
    by lia.
  rewrite G6, G5, G4, G3, G2, G1, T0, G0.
  split; [reflexivity|]. split; [reflexivity|].
  now rewrite W6, W5, W4, W3, W2, W1, W0.
Qed.

(** The run of [trunc_normal_] with a non-zero [std] and ordered bounds. *)
Lemma trunc_normal_steps tensor mean std a b st :
  (std =? 0)%float = false ->
  (a <=? b)%float = true ->
  exists s,
    trunc_normal_ math_erf uniform_kernel erf_kernel multiply_kernel
      add_kernel clip_kernel to_tensor_kernel tensor mean std a b st
    = (Ok (next_id st + 6), s) /\
    tensors s (next_id st + 6)
    = trunc_normal_value erf_kernel multiply_kernel add_kernel clip_kernel
        to_tensor_kernel
        (fst (trunc_normal_draw math_erf uniform_kernel (generator st)
                (shape (tensors st tensor)) mean std a b))
        mean std a b /\
    next_id s = next_id st + 7 /\
    generator s
    = snd (trunc_normal_draw math_erf uniform_kernel (generator st)
             (shape (tensors st tensor)) mean std a b) /\
    grad_enabled s = grad_enabled st /\
    warnings_log s
    = warnings_log st
      ++ (if mean_out_of_range mean std a b
          then [trunc_normal_warning] else []).
Proof.
  intros Hstd Hab.
  destruct (trunc_normal_before_clip tensor mean std a b st Hstd)
    as (s6 & -> & N6 & V6 & G6 & W6).
  unfold Tensor_clip, bind, read_tensor, gets. rewrite Hab.
  destruct (new_tensor_spec (clip_kernel a b (tensors s6 (next_id st + 5))) s6)
    as (s7 & E7 & N7 & V7 & K7 & G7 & _ & W7).
  rewrite E7. exists (set_grad_enabled (grad_enabled st) s7).
  unfold set_grad_enabled, trunc_normal_value.
  cbn [tensors next_id generator grad_enabled warnings_log].
  rewrite <- N6, V7, V6, G7, G6, W7, W6.
  split; [reflexivity|]. split; [reflexivity|]. split; [lia|].
  now repeat split.
Qed.

Lemma trunc_normal_run tensor mean std a b st :
  (std =? 0)%float = false ->
  (a <=? b)%float = true ->
  let run := trunc_normal_ math_erf uniform_kernel erf_kernel multiply_kernel
               add_kernel clip_kernel to_tensor_kernel tensor mean std a b st in
  let draw := trunc_normal_draw math_erf uniform_kernel (generator st)
                (shape (tensors st tensor)) mean std a b in
  fst run = Ok (next_id st + 6) /\
  tensors (snd run) (next_id st + 6)
  = trunc_normal_value erf_kernel multiply_kernel add_kernel clip_kernel
      to_tensor_kernel (fst draw) mean std a b /\
  next_id (snd run) = next_id st + 7 /\
  generator (snd run) = snd draw /\
  grad_enabled (snd run) = grad_enabled st /\
  warnings_log (snd run)
  = warnings_log st
    ++ (if mean_out_of_range mean std a b then [trunc_normal_warning] else []).
Proof.
  intros Hstd Hab run draw. subst run draw.
  destruct (trunc_normal_steps tensor mean std a b st Hstd Hab)
    as (s & -> & H).
  exact (conj eq_refl H).
Qed.

(** A call that returns had a non-zero [std] and bounds that [clip]
    takes. *)
Lemma trunc_normal_returned tensor mean std a b st t :
  fst (trunc_normal_ math_erf uniform_kernel erf_kernel multiply_kernel
         add_kernel clip_kernel to_tensor_kernel tensor mean std a b st)
  = Ok t ->
  (std =? 0)%float = false /\ (a <=? b)%float = true.
Proof.
  destruct (std =? 0)%float eqn:Hstd.
  { unfold trunc_normal_, _no_grad_trunc_normal_, with_no_grad.
    unfold bind at 1.
    destruct (_ || _); cbn [warn modify ret fst snd];
      unfold bind at 1; unfold py_div at 1; rewrite Hstd; discriminate. }
  destruct (trunc_normal_before_clip tensor mean std a b st Hstd)
    as (s6 & -> & _).
  unfold Tensor_clip. destruct (a <=? b)%float; [now split | discriminate].
Qed.

(** X7. The tensor [trunc_normal_] returns was created by the call and
    holds the clipped, shifted and scaled [erf] of one uniform draw of the
    argument's shape; a call that returns had a non-zero [std], has created
    seven tensors, advanced the generator by that one draw, restored the
    gradient mode and warned exactly when [mean] is more than two [std]
    outside of [[a, b]]. *)
Theorem trunc_normal_result tensor mean std a b st t :
  let run := trunc_normal_ math_erf uniform_kernel erf_kernel multiply_kernel
               add_kernel clip_kernel to_tensor_kernel tensor mean std a b st in
  let draw := trunc_normal_draw math_erf uniform_kernel (generator st)
                (shape (tensors st tensor)) mean std a b in
  fst run = Ok t ->
  (std =? 0)%float = false /\
  next_id st <= t < next_id (snd run) /\
  tensors (snd run) t
  = trunc_normal_value erf_kernel multiply_kernel add_kernel clip_kernel
      to_tensor_kernel (fst draw) mean std a b /\
  next_id (snd run) = next_id st + 7 /\
  generator (snd run) = snd draw /\
  grad_enabled (snd run) = grad_enabled st /\
  warnings_log (snd run)
  = warnings_log st
    ++ (if mean_out_of_range mean std a b then [trunc_normal_warning] else []).
Proof.
  intros run draw Hrun.
  destruct (trunc_normal_returned tensor mean std a b st t Hrun) as [Hstd Hab].
  destruct (trunc_normal_run tensor mean std a b st Hstd Hab)
    as (Hr & Hv & Hn & Hg & Hgrad & Hw).
  fold run in Hr, Hv, Hn, Hg, Hgrad, Hw. fold draw in Hv, Hg.
  rewrite Hr in Hrun. injection Hrun as <-.
  split; [exact Hstd|]. split; [lia|]. now repeat split.
Qed.

(** X8. With [std] zero the call raises ZeroDivisionError at its first
    division: no tensor is created or changed and nothing is drawn, the
    gradient mode is restored, and the warning, when due, has already been
    issued. *)
Theorem trunc_normal_zero_std tensor mean std a b st :
  (std =? 0)%float = true ->
  let run := trunc_normal_ math_erf uniform_kernel erf_kernel multiply_kernel
               add_kernel clip_kernel to_tensor_kernel tensor mean std a b st in
  fst run = Raise ZeroDivisionError /\
  tensors (snd run) = tensors st /\
  next_id (snd run) = next_id st /\
  generator (snd run) = generator st /\
  grad_enabled (snd run) = grad_enabled st /\
  warnings_log (snd run)
  = warnings_log st
    ++ (if mean_out_of_range mean std a b then [trunc_normal_warning] else []).
Proof.
  intros Hstd run. subst run.
  unfold trunc_normal_, _no_grad_trunc_normal_, with_no_grad, py_div,
    mean_out_of_range, trunc_normal_warning.
  rewrite Hstd.
  unfold warn, modify, bind, ret, raise, set_grad_enabled.
  destruct ((mean <? a - 2 * std)%float || (b + 2 * std <? mean)%float);
    cbn [fst snd tensors next_id generator grad_enabled warnings_log];
    rewrite ?app_nil_r; repeat split.
Qed.

(** X9. When the kernels keep shapes as paddle's do (the draw has the
    requested shape, [erf] and [clip] keep the shape, and multiplying by or
    adding a 0-dimensional tensor keeps the shape of the other operand), a
    tensor [trunc_normal_] returns has the shape of its argument. *)
Theorem trunc_normal_shape tensor mean std a b st t :
  (forall g shp lo hi, shape (fst (uniform_kernel g shp lo hi)) = shp) ->
  (forall v, shape (erf_kernel v) = shape v) ->
  (forall v w, shape w = [] -> shape (multiply_kernel v w) = shape v) ->
  (forall v w, shape w = [] -> shape (add_kernel v w) = shape v) ->
  (forall lo hi v, shape (clip_kernel lo hi v) = shape v) ->
  (forall x, shape (to_tensor_kernel x) = []) ->
  let run := trunc_normal_ math_erf uniform_kernel erf_kernel multiply_kernel
               add_kernel clip_kernel to_tensor_kernel tensor mean std a b st in
  fst run = Ok t ->
  shape (tensors (snd run) t) = shape (tensors st tensor).
Proof.
  intros Hu He Hm Ha Hc Ht run Hrun.
  destruct (trunc_normal_returned tensor mean std a b st t Hrun) as [Hstd Hab].
  destruct (trunc_normal_run tensor mean std a b st Hstd Hab)
    as (Hr & Hv & _).
  fold run in Hr, Hv. rewrite Hr in Hrun. injection Hrun as <-.
  rewrite Hv. unfold trunc_normal_value, trunc_normal_draw.
  now rewrite Hc, Ha, Hm, He, Hu by apply Ht.
Qed.

End TruncNormalMore.

Section TruncNormalMoreExamples.

(** X7 on [ex_runtime]: the call on [cls_token] returns tensor 8. *)
Lemma trunc_normal_result_cls_token :
  let run := trunc_normal_ (fun x => x) ex_uniform ex_unary ex_binary ex_binary
               ex_clip ex_to_tensor 0 0%float 0x1.47ae147ae147bp-6%float
               (-2)%float 2%float ex_runtime in
  fst run = Ok 8 /\
  next_id (snd run) = 9 /\ generator (snd run) = 6 /\
  warnings_log (snd run) = [].
Proof.
  intros run.
  assert (Hrun : fst run = Ok 8) by reflexivity.
  destruct (trunc_normal_result (fun x => x) ex_uniform ex_unary ex_binary
              ex_binary ex_clip ex_to_tensor 0 0%float
              0x1.47ae147ae147bp-6%float (-2)%float 2%float ex_runtime 8 Hrun)
    as (_ & _ & _ & H3 & H4 & _ & H6).
  split; [exact Hrun|].
  split; [exact H3|]. split; [exact H4 | exact H6].
Defined.

(** X8 on [ex_runtime]: a zero [std] far from [mean = 5] raises after the
    warning. *)
Lemma trunc_normal_zero_std_cls_token :
  let run := trunc_normal_ (fun x => x) ex_uniform ex_unary ex_binary ex_binary
               ex_clip ex_to_tensor 0 5%float 0%float (-2)%float 2%float
               ex_runtime in
  fst run = Raise ZeroDivisionError /\ next_id (snd run) = 2 /\
  warnings_log (snd run) = [trunc_normal_warning].
Proof.
  intros run.
  destruct (trunc_normal_zero_std (fun x => x) ex_uniform ex_unary ex_binary
              ex_binary ex_clip ex_to_tensor 0 5%float 0%float (-2)%float
              2%float ex_runtime eq_refl)
    as (H1 & _ & H3 & _ & _ & H6).
  split; [exact H1|]. split; [exact H3 | exact H6].
Defined.

(** X9 on [ex_runtime]: the stand-in kernels keep shapes, and the tensor
    returned for [pos_embed] has shape [1, 3, 4]. *)
Lemma trunc_normal_shape_pos_embed :
  let run := trunc_normal_ (fun x => x) ex_uniform ex_unary ex_binary ex_binary
               ex_clip ex_to_tensor 1 0%float 0x1.47ae147ae147bp-6%float
               (-2)%float 2%float ex_runtime in
  fst run = Ok 8 /\ shape (tensors (snd run) 8) = [1; 3; 4].
Proof.
  intros run.
  assert (Hrun : fst run = Ok 8) by reflexivity.
  split; [exact Hrun|].
  apply (trunc_normal_shape (fun x => x) ex_uniform ex_unary ex_binary
           ex_binary ex_clip ex_to_tensor 1 0%float
           0x1.47ae147ae147bp-6%float (-2)%float 2%float ex_runtime 8);
    try reflexivity.
Defined.

End TruncNormalMoreExamples.

(** ** What [_init_weights] and [self.apply] leave behind *)

Section InitWeightsFacts.
Context {elt rng : Type}.
Variable math_erf : float -> float.
Variable uniform_kernel : rng -> list nat -> float -> float -> ndarray elt * rng.
Variable erf_kernel : ndarray elt -> ndarray elt.
Variable multiply_kernel : ndarray elt -> ndarray elt -> ndarray elt.
Variable add_kernel : ndarray elt -> ndarray elt -> ndarray elt.
Variable clip_kernel : float -> float -> ndarray elt -> ndarray elt.
Variable to_tensor_kernel : float -> ndarray elt.
Variable of_float : float -> elt.

Implicit Types (net : network elt rng) (rt : runtime elt rng).


(** The call [trunc_normal_(m.weight, std=.02)] returns, keeps every
    existing tensor and does not touch the layers. *)
Lemma trunc_normal_call w net :
  exists t rt,
    call (trunc_normal_ math_erf uniform_kernel erf_kernel multiply_kernel
            add_kernel clip_kernel to_tensor_kernel w 0%float
            0x1.47ae147ae147bp-6%float (-2)%float 2%float) net
    = (Done t, {| paddle := rt; layers := layers net |}) /\
    tensors_preserved (paddle net) rt.
Proof.
  pose proof (trunc_normal_run math_erf uniform_kernel erf_kernel
                multiply_kernel add_kernel clip_kernel to_tensor_kernel w
                0%float 0x1.47ae147ae147bp-6%float (-2)%float 2%float
                (paddle net) eq_refl eq_refl) as (Hr & _).
  pose proof (keeps_no_grad_trunc_normal_ math_erf uniform_kernel erf_kernel
                multiply_kernel add_kernel clip_kernel to_tensor_kernel w
                0%float 0x1.47ae147ae147bp-6%float (-2)%float 2%float
                (paddle net)) as Hk.
  unfold call. fold (trunc_normal_ math_erf uniform_kernel erf_kernel
    multiply_kernel add_kernel clip_kernel to_tensor_kernel w 0%float
    0x1.47ae147ae147bp-6%float (-2)%float 2%float) in Hk.
  destruct (trunc_normal_ _ _ _ _ _ _ _ _ _ _ _ _ (paddle net)) as [o rt].
  cbn [fst snd] in Hr, Hk. subst o. now exists (next_id (paddle net) + 6), rt.
Qed.

Lemma with_parameter_preserved rt v :
  tensors_preserved rt (with_parameter rt v).
Proof.
  split; cbn [with_parameter next_id tensors]; [lia|].
  intros l Hl. apply fn_lookup_insert_ne. lia.
Qed.

(** One call of [_init_weights]: existing tensors and the other layers are
    kept, whatever the outcome. *)
Lemma init_weights_frame m net :
  let r := _init_weights math_erf uniform_kernel erf_kernel multiply_kernel
             add_kernel clip_kernel to_tensor_kernel of_float m net in
  network_tensors_preserved net (snd r) /\
  forall m', m' <> m -> layers (snd r) m' = layers net m'.
Proof.
  cbv zeta. unfold network_tensors_preserved, _init_weights, nbind, get_layer.
  destruct (layers net m) as [w [b|] | [w|] [b|] | ].
  - destruct (trunc_normal_call w net) as (t & rt & -> & Hk).
    cbn. split.
    + eapply tensors_preserved_trans; [exact Hk|].
      apply (with_parameter_preserved rt).
    + intros m' Hm. now apply fn_lookup_insert_ne.
  - destruct (trunc_normal_call w net) as (t & rt & -> & Hk).
    cbn. now split.
  - cbn. split.
    + eapply tensors_preserved_trans;
        [apply (with_parameter_preserved (paddle net))|].
      apply (with_parameter_preserved (with_parameter (paddle net) _)).
    + intros m' Hm. rewrite fn_lookup_insert_ne by congruence.
      now apply fn_lookup_insert_ne.
  - cbn. split.
    + apply (with_parameter_preserved (paddle net)).
    + intros m' Hm. now apply fn_lookup_insert_ne.
  - cbn. split; [apply tensors_preserved_refl | reflexivity].
  - cbn. split; [apply tensors_preserved_refl | reflexivity].
  - cbn. split; [apply tensors_preserved_refl | reflexivity].
Qed.

(** One call of [_init_weights] on a layer that is not a [LayerNorm]
    lacking a parameter. *)
Lemma init_weights_step m net :
  layer_allocated net m ->
  norms_complete net [m] ->
  let r := _init_weights math_erf uniform_kernel erf_kernel multiply_kernel
             add_kernel clip_kernel to_tensor_kernel of_float m net in
  fst r = Done tt /\ initialised of_float net (snd r) m.
Proof.
  intros Ha Hc. specialize (Hc m (or_introl eq_refl)). cbv zeta.
  unfold layer_allocated in Ha. unfold initialised.
  unfold _init_weights, nbind, get_layer.
  destruct (layers net m) as [w [b|] | [w|] [b|] | ] eqn:E.
  - destruct Ha as [_ Hb]. specialize (Hb b eq_refl).
    destruct (trunc_normal_call w net) as (t & rt & -> & Hk).
    cbn. split; [reflexivity|].
    exists (next_id rt). split; [apply fn_lookup_insert|].
    destruct Hk as [Hn Hk]. split; [lia|].
    rewrite fn_lookup_insert. unfold full. now rewrite Hk.
  - destruct (trunc_normal_call w net) as (t & rt & -> & Hk).
    cbn. now split.
  - destruct Ha as [Hw Hb]. specialize (Hw w eq_refl).
    specialize (Hb b eq_refl). cbn. split; [reflexivity|].
    exists (next_id (paddle net)), (S (next_id (paddle net))).
    split; [apply fn_lookup_insert|].
    split; [lia|]. split; [lia|]. split.
    + rewrite fn_lookup_insert_ne by lia. now rewrite fn_lookup_insert.
    + rewrite fn_lookup_insert. unfold full.
      now rewrite fn_lookup_insert_ne by lia.
  - now destruct Hc.
  - now destruct Hc.
  - now destruct Hc.
  - cbn. now split.
Qed.

Lemma nfor_each_cons {A} (x : A) xs (body : A -> NM elt rng unit) net :
  nfor_each (x :: xs) body net
  = match body x net with
    | (Done _, net') => nfor_each xs body net'
    | (Failed e, net') => (Failed e, net')
    end.
Proof. reflexivity. Qed.

(** [self.apply]: existing tensors and the layers outside the traversal are
    kept, whatever the outcome. *)
Lemma apply_frame ms net :
  let r := apply_init_weights math_erf uniform_kernel erf_kernel
             multiply_kernel add_kernel clip_kernel to_tensor_kernel of_float
             ms net in
  network_tensors_preserved net (snd r) /\
  forall m, ~ In m ms -> layers (snd r) m = layers net m.
Proof.
  cbv zeta. unfold apply_init_weights. revert net.
  induction ms as [|m0 ms IH]; intros net.
  - cbn. split; [apply tensors_preserved_refl | reflexivity].
  - rewrite nfor_each_cons.
    destruct (init_weights_frame m0 net) as [Hk Hl]. cbv zeta in Hk, Hl.
    destruct (_init_weights _ _ _ _ _ _ _ _ m0 net) as [[[]|e] net1].
    + cbn [snd] in Hk, Hl. destruct (IH net1) as [Hk' Hl']. split.
      * eapply tensors_preserved_trans; [exact Hk | exact Hk'].
      * intros m Hm. cbn [In] in Hm.
        transitivity (layers net1 m); [apply Hl'; tauto|].
        apply Hl. intros ->. tauto.
    + cbn [snd] in *. split; [exact Hk|].
      intros m Hm. cbn [In] in Hm. apply Hl. intros ->. tauto.
Qed.

Lemma initialised_allocated net net1 m :
  layer_allocated net m -> norms_complete net [m] ->
  network_tensors_preserved net net1 ->
  initialised of_float net net1 m ->
  layer_allocated net1 m /\ norms_complete net1 [m].
Proof.
  intros Ha Hc [Hn _] Hi. specialize (Hc m (or_introl eq_refl)).
  unfold layer_allocated in *. unfold initialised in Hi.
  unfold norms_complete.
  destruct (layers net m) as [w [b|] | [w|] [b|] | ].
  - destruct Hi as (p & Hp & [_ Hf] & _). rewrite Hp. split.
    + split; [lia|]. intros l [= <-]. exact Hf.
    + intros m' [<-|[]]. now rewrite Hp.
  - rewrite Hi. split.
    + split; [lia|]. intros l [=].
    + intros m' [<-|[]]. now rewrite Hi.
  - destruct Hi as (p & p' & Hp & [_ Hf] & [_ Hf'] & _). rewrite Hp. split.
    + split; intros l [= <-]; assumption.
    + intros m' [<-|[]]. now rewrite Hp.
  - now destruct Hc.
  - now destruct Hc.
  - now destruct Hc.
  - rewrite Hi. split; [exact I|]. intros m' [<-|[]]. now rewrite Hi.
Qed.

Lemma unchanged_allocated net net1 m :
  layers net1 m = layers net m ->
  network_tensors_preserved net net1 ->
  layer_allocated net m -> norms_complete net [m] ->
  layer_allocated net1 m /\ norms_complete net1 [m].
Proof.
  intros He [Hn _] Ha Hc. specialize (Hc m (or_introl eq_refl)).
  unfold layer_allocated, norms_complete in *. split.
  - rewrite He. destruct (layers net m) as [w b | w b | ].
    + destruct Ha as [Hw Hb]. split; [lia|].
      intros l Hl. specialize (Hb l Hl). lia.
    + destruct Ha as [Hw Hb].
      split; intros l Hl; [specialize (Hw l Hl) | specialize (Hb l Hl)]; lia.
    + exact I.
  - intros m' [<-|[]]. now rewrite He.
Qed.

Lemma initialised_after_unchanged net net1 net2 m :
  layers net1 m = layers net m ->
  network_tensors_preserved net net1 ->
  layer_allocated net m ->
  initialised of_float net1 net2 m ->
  initialised of_float net net2 m.
Proof.
  intros He [Hn Hk] Ha Hi. unfold initialised, layer_allocated in *.
  rewrite He in Hi.
  destruct (layers net m) as [w [b|] | [w|] [b|] | ]; try exact Hi.
  - destruct Ha as [_ Hb]. specialize (Hb b eq_refl).
    destruct Hi as (p & Hp & [Hf Hf'] & Hv). exists p.
    split; [exact Hp|]. split; [lia|]. now rewrite <- (Hk b Hb).
  - destruct Ha as [Hw Hb]. specialize (Hw w eq_refl).
    specialize (Hb b eq_refl).
    destruct Hi as (p & p' & Hp & [Hf1 Hf2] & [Hf3 Hf4] & Hv & Hv').
    exists p, p'. split; [exact Hp|]. split; [lia|]. split; [lia|].
    rewrite <- (Hk w Hw), <- (Hk b Hb). now split.
Qed.

Lemma initialised_then_unchanged net net1 net2 m :
  initialised of_float net net1 m ->
  layers net2 m = layers net1 m ->
  network_tensors_preserved net1 net2 ->
  initialised of_float net net2 m.
Proof.
  intros Hi He [Hn Hk]. unfold initialised in *. rewrite He.
  destruct (layers net m) as [w [b|] | [w|] [b|] | ]; try exact Hi.
  - destruct Hi as (p & Hp & [Hf Hf'] & Hv). exists p.
    split; [exact Hp|]. split; [lia|]. now rewrite (Hk p Hf').
  - destruct Hi as (p & p' & Hp & [Hf1 Hf2] & [Hf3 Hf4] & Hv & Hv').
    exists p, p'. split; [exact Hp|]. split; [lia|]. split; [lia|].
    rewrite (Hk p Hf2), (Hk p' Hf4). now split.
Qed.

Lemma initialised_twice net net1 net2 m :
  initialised of_float net net1 m ->
  initialised of_float net1 net2 m ->
  initialised of_float net net2 m.
Proof.
  intros Hi Hi'. unfold initialised in *.
  destruct (layers net m) as [w [b|] | [w|] [b|] | ]; try exact I.
  - destruct Hi as (p & Hp & [Hf Hf'] & Hv). rewrite Hp in Hi'.
    destruct Hi' as (q & Hq & [Hg Hg'] & Hw). exists q.
    split; [exact Hq|]. split; [lia|]. now rewrite Hw, Hv.
  - now rewrite Hi in Hi'.
  - destruct Hi as (p & p' & Hp & [Hf1 Hf2] & [Hf3 Hf4] & Hv & Hv').
    rewrite Hp in Hi'.
    destruct Hi' as (q & q' & Hq & [Hg1 Hg2] & [Hg3 Hg4] & Hw & Hw').
    exists q, q'. split; [exact Hq|]. split; [lia|]. split; [lia|].
    now rewrite Hw, Hw', Hv, Hv'.
  - now rewrite Hi in Hi'.
Qed.

(** [self.apply] over layers that exist and have their parameters. *)
Lemma apply_run ms net :
  (forall m, In m ms -> layer_allocated net m) ->
  norms_complete net ms ->
  let r := apply_init_weights math_erf uniform_kernel erf_kernel
             multiply_kernel add_kernel clip_kernel to_tensor_kernel of_float
             ms net in
  fst r = Done tt /\
  forall m, In m ms -> initialised of_float net (snd r) m.
Proof.
  cbv zeta. revert net.
  induction ms as [|m0 ms IH]; intros net Ha Hc.
  - cbn. split; [reflexivity | intros m []].
  - assert (Hc0 : norms_complete net [m0]).
    { intros m [<-|[]]. apply Hc. now left. }
    destruct (init_weights_step m0 net (Ha m0 (or_introl eq_refl)) Hc0)
      as [Hr Hi].
    destruct (init_weights_frame m0 net) as [Hk Hl].
    cbv zeta in Hr, Hi, Hk, Hl.
    pose proof (apply_frame ms) as Hfr. cbv zeta in Hfr.
    unfold apply_init_weights in *. rewrite nfor_each_cons.
    destruct (_init_weights _ _ _ _ _ _ _ _ m0 net) as [o net1].
    cbn [fst snd] in Hr, Hi, Hk, Hl. subst o.
    assert (Hstep : forall m, In m (m0 :: ms) ->
              layer_allocated net1 m /\ norms_complete net1 [m]).
    { intros m Hm.
      assert (Hcm : norms_complete net [m]).
      { intros m' [<-|[]]. now apply Hc. }
      destruct (Nat.eq_dec m m0) as [->|Hne].
      - apply (initialised_allocated net); auto.
      - apply (unchanged_allocated net); auto. }
    destruct (IH net1) as [Hr' Hi'].
    { intros m Hm. apply Hstep. now right. }
    { intros m Hm. destruct (Hstep m (or_intror Hm)) as [_ H].
      apply (H m). now left. }
    split; [exact Hr'|].
    destruct (Hfr net1) as [Hk' Hl'].
    intros m Hm.
    destruct (in_dec Nat.eq_dec m ms) as [Hin|Hout].
    + specialize (Hi' m Hin).
      destruct (Nat.eq_dec m m0) as [->|Hne].
      * now apply (initialised_twice net net1).
      * apply (initialised_after_unchanged net net1); auto.
    + assert (m = m0) as -> by (destruct Hm; congruence).
      apply (initialised_then_unchanged net net1); auto.
Qed.

(** One call of [_init_weights] on a [LayerNorm] lacking a parameter. *)
Lemma init_weights_fails m net w b :
  layers net m = LayerNorm w b -> w = None \/ b = None ->
  let r := _init_weights math_erf uniform_kernel erf_kernel multiply_kernel
             add_kernel clip_kernel to_tensor_kernel of_float m net in
  fst r = Failed (AttributeError "shape") /\
  match w with
  | None => snd r = net
  | Some l =>
      paddle (snd r)
      = with_parameter (paddle net)
          (full of_float (shape (tensors (paddle net) l)) 1) /\
      layers (snd r) = <[m := LayerNorm (Some (next_id (paddle net))) None]>
                         (layers net)
  end.
Proof.
  intros E Hnone. cbv zeta. unfold _init_weights, nbind, get_layer.
  rewrite E. destruct w as [l|]; [destruct b as [b|]|].
  - now destruct Hnone.
  - cbn. now split.
  - cbn. now split.
Qed.

Lemma nfor_each_app {A} (xs ys : list A) (body : A -> NM elt rng unit) net :
  nfor_each (xs ++ ys) body net
  = match nfor_each xs body net with
    | (Done _, net') => nfor_each ys body net'
    | (Failed e, net') => (Failed e, net')
    end.
Proof.
  revert net. induction xs as [|x xs IH]; intros net; [reflexivity|].
  cbn [app]. rewrite !nfor_each_cons.
  destruct (body x net) as [[[]|e] net1]; [apply IH | reflexivity].
Qed.

(** X10. When every visited layer exists and every visited [LayerNorm] has
    both parameters, [self.apply(self._init_weights)] returns, and each
    visited layer is initialised: a [Linear] keeps the weight object it had,
    so the draw of [trunc_normal_] is lost, and gets a new bias of zeros of
    the old shape when it had a bias; a [LayerNorm] gets a new weight of
    ones and a new bias of zeros of the old shapes.  A layer may be visited
    more than once. *)
Theorem apply_init_weights_initialises ms net :
  (forall m, In m ms -> layer_allocated net m) ->
  norms_complete net ms ->
  let r := apply_init_weights math_erf uniform_kernel erf_kernel
             multiply_kernel add_kernel clip_kernel to_tensor_kernel of_float
             ms net in
  fst r = Done tt /\
  forall m, In m ms -> initialised of_float net (snd r) m.
Proof. intros Ha Hc. exact (apply_run ms net Ha Hc). Qed.

(** X11. Whatever its outcome, [self.apply(self._init_weights)] changes no
    tensor that existed before the call, and no layer outside the
    traversal. *)
Theorem apply_init_weights_frame ms net :
  let r := apply_init_weights math_erf uniform_kernel erf_kernel
             multiply_kernel add_kernel clip_kernel to_tensor_kernel of_float
             ms net in
  network_tensors_preserved net (snd r) /\
  forall m, ~ In m ms -> layers (snd r) m = layers net m.
Proof. exact (apply_frame ms net). Qed.

(** X12. On a [LayerNorm] built without a weight or without a bias,
    [_init_weights] raises the AttributeError of reading [.shape] on
    [None].  Without a weight nothing has changed by then; with a weight
    and no bias the weight has already been replaced by a new parameter of
    ones. *)
Theorem init_weights_incomplete_layer_norm m net w b :
  layers net m = LayerNorm w b -> w = None \/ b = None ->
  let r := _init_weights math_erf uniform_kernel erf_kernel multiply_kernel
             add_kernel clip_kernel to_tensor_kernel of_float m net in
  fst r = Failed (AttributeError "shape") /\
  match w with
  | None => snd r = net
  | Some l =>
      paddle (snd r)
      = with_parameter (paddle net)
          (full of_float (shape (tensors (paddle net) l)) 1) /\
      layers (snd r) = <[m := LayerNorm (Some (next_id (paddle net))) None]>
                         (layers net)
  end.
Proof. intros E Hnone. exact (init_weights_fails m net w b E Hnone). Qed.

(** X13. [self.apply] stops at the first [LayerNorm] lacking a parameter:
    when the layers visited before it exist and are complete, the call
    raises AttributeError and the layers that come later in the traversal
    only are left as they were. *)
Theorem apply_init_weights_stops pre m post net w b :
  (forall m', In m' pre -> layer_allocated net m') ->
  norms_complete net pre ->
  layers net m = LayerNorm w b -> w = None \/ b = None ->
  let r := apply_init_weights math_erf uniform_kernel erf_kernel
             multiply_kernel add_kernel clip_kernel to_tensor_kernel of_float
             (pre ++ m :: post) net in
  fst r = Failed (AttributeError "shape") /\
  forall m', ~ In m' (pre ++ [m]) -> layers (snd r) m' = layers net m'.
Proof.
  intros Ha Hc E Hnone. cbv zeta.
  assert (Hm : ~ In m pre).
  { intros Hin. specialize (Hc m Hin). rewrite E in Hc.
    destruct Hc, Hnone; contradiction. }
  destruct (apply_run pre net Ha Hc) as [Hr _].
  destruct (apply_frame pre net) as [_ Hl].
  cbv zeta in Hr, Hl. unfold apply_init_weights in *.
  rewrite nfor_each_app.
  destruct (nfor_each pre _ net) as [o net1]. cbn [fst snd] in Hr, Hl.
  subst o. rewrite nfor_each_cons.
  assert (E1 : layers net1 m = LayerNorm w b) by (now rewrite Hl).
  destruct (init_weights_fails m net1 w b E1 Hnone) as [Hf _].
  destruct (init_weights_frame m net1) as [_ Hl1].
  cbv zeta in Hf, Hl1.
  destruct (_init_weights _ _ _ _ _ _ _ _ m net1) as [o net2].
  cbn [fst snd] in Hf, Hl1. subst o. cbn [fst snd]. split; [reflexivity|].
  intros m' Hm'. rewrite in_app_iff in Hm'. cbn [In] in Hm'.
  rewrite Hl1 by (intros ->; tauto). apply Hl. tauto.
Qed.

End InitWeightsFacts.

Section InitWeightsExamples.

Lemma ex_network_allocated m : In m [0; 1] -> layer_allocated ex_network m.
Proof.
  intros [<-|[<-|[]]]; unfold layer_allocated; cbn;
    split; try lia; intros l [= <-]; lia.
Qed.

Lemma ex_network_complete : norms_complete ex_network [0; 1].
Proof. intros m [<-|[<-|[]]]; cbn; [exact I | split; discriminate]. Qed.

(** X10 on [ex_network]: the [Linear] and the complete [LayerNorm] are
    initialised. *)
Lemma apply_init_weights_initialises_small :
  let r := apply_init_weights (fun x => x) ex_uniform ex_unary ex_binary
             ex_binary ex_clip ex_to_tensor ex_of_float [0; 1] ex_network in
  fst r = Done tt /\
  initialised ex_of_float ex_network (snd r) 0 /\
  initialised ex_of_float ex_network (snd r) 1.
Proof.
  intros r.
  destruct (apply_init_weights_initialises (fun x => x) ex_uniform ex_unary
              ex_binary ex_binary ex_clip ex_to_tensor ex_of_float [0; 1]
              ex_network ex_network_allocated ex_network_complete)
    as [H1 H2].
  split; [exact H1|].
  split; apply H2; cbn; auto.
Defined.

(** X12 on [ex_network]: the [LayerNorm] built without a weight. *)
Lemma init_weights_incomplete_layer_norm_small :
  let r := _init_weights (fun x => x) ex_uniform ex_unary ex_binary ex_binary
             ex_clip ex_to_tensor ex_of_float 2 ex_network in
  fst r = Failed (AttributeError "shape") /\ snd r = ex_network.
Proof.
  exact (init_weights_incomplete_layer_norm (fun x => x) ex_uniform ex_unary
           ex_binary ex_binary ex_clip ex_to_tensor ex_of_float 2 ex_network
           None (Some 3) eq_refl (or_introl eq_refl)).
Defined.

(** X13 on [ex_network]: the traversal 0, 1, 2, 3 stops at layer 2. *)
Lemma apply_init_weights_stops_small :
  let r := apply_init_weights (fun x => x) ex_uniform ex_unary ex_binary
             ex_binary ex_clip ex_to_tensor ex_of_float [0; 1; 2; 3]
             ex_network in
  fst r = Failed (AttributeError "shape") /\
  layers (snd r) 3 = OtherLayer.
Proof.
  intros r.
  destruct (apply_init_weights_stops (fun x => x) ex_uniform ex_unary
              ex_binary ex_binary ex_clip ex_to_tensor ex_of_float [0; 1] 2
              [3] ex_network None (Some 3) ex_network_allocated
              ex_network_complete eq_refl (or_introl eq_refl))
    as [H1 H2].
  split; [exact H1|].
  apply (H2 3). cbn. lia.
Defined.

End InitWeightsExamples.

(** ** The mapping names every path once *)

Section MappingInjective.

Lemma append_cons (c : ascii) (s t : string) :
  String c s +:+ t = String c (s +:+ t).
Proof. reflexivity. Qed.

Lemma append_inj (p a b : string) : p +:+ a = p +:+ b -> a = b.
Proof.
  induction p as [|c p IH]; [exact (fun H => H)|].
  rewrite !append_cons. intros [= H]. now apply IH.
Qed.

(** The decimal digits of a number hold no full stop. *)
Lemma pretty_N_go_no_dot (x : N) (s : string) :
  no_dot s = true -> no_dot (pretty_N_go x s) = true.
Proof.
  revert s. induction (N.lt_wf_0 x) as [x _ IH]; intros s Hs.
  destruct (N.eq_dec x 0%N) as [->|Hx]; [now rewrite pretty_N_go_0|].
  rewrite pretty_N_go_step by lia. apply IH.
  - apply N.div_lt; lia.
  - cbn [no_dot]. rewrite Hs, andb_true_r.
    unfold pretty_N_char. now repeat case_match.
Qed.

Lemma fmt_no_dot (n : nat) : no_dot (fmt n) = true.
Proof.
  unfold fmt, pretty, pretty_nat, pretty, pretty_N.
  case_decide; [reflexivity|]. now apply pretty_N_go_no_dot.
Qed.

(** A path is cut in one way at its first full stop. *)
Lemma split_at_dot (d d' r r' : string) :
  no_dot d = true -> no_dot d' = true ->
  d +:+ "." +:+ r = d' +:+ "." +:+ r' -> d = d' /\ r = r'.
Proof.
  revert d'. induction d as [|c d IH]; intros [|c' d'] Hd Hd'.
  - intros H. apply (append_inj ".") in H. now split.
  - rewrite !append_cons. intros [= <- _]. discriminate Hd'.
  - rewrite !append_cons. intros [= -> _]. discriminate Hd.
  - rewrite !append_cons. intros [= <- H].
    cbn [no_dot] in Hd, Hd'.
    apply andb_true_iff in Hd as [_ Hd], Hd' as [_ Hd'].
    destruct (IH d' Hd Hd' H) as [-> ->]. now split.
Qed.

Lemma fmt_split (n n' : nat) (r r' : string) :
  fmt n +:+ "." +:+ r = fmt n' +:+ "." +:+ r' -> n = n' /\ r = r'.
Proof.
  intros H. apply split_at_dot in H as [Hn Hr]; try apply fmt_no_dot.
  split; [|exact Hr]. unfold fmt in Hn. now apply (inj pretty) in Hn.
Qed.

Lemma ListNoDup_app_intro {A} (a b : list A) :
  List.NoDup a -> List.NoDup b -> (forall x, In x a -> In x b -> False) ->
  List.NoDup (a ++ b).
Proof.
  intros Ha Hb Hd. induction Ha as [|x a Hx Ha IH]; [exact Hb|].
  cbn [app]. constructor.
  - rewrite in_app_iff. intros [H|H]; [now apply Hx|].
    apply (Hd x); [now left | exact H].
  - apply IH. intros y Hy. apply Hd. now right.
Qed.

Lemma ListNoDup_map_inj {A B} (f : A -> B) (l : list A) :
  (forall x y, In x l -> In y l -> f x = f y -> x = y) ->
  List.NoDup l -> List.NoDup (map f l).
Proof.
  intros Hf Hl. induction Hl as [|x l Hx Hl IH]; [constructor|].
  cbn [map]. constructor.
  - rewrite in_map_iff. intros (y & Hy & Hin).
    assert (y = x) as -> by (apply Hf; [now right | now left | exact Hy]).
    contradiction.
  - apply IH. intros y z Hy Hz. apply Hf; now right.
Qed.

Lemma ListNoDup_flat_map {A B} (f : A -> list B) (l : list A) :
  List.NoDup l ->
  (forall x, In x l -> List.NoDup (f x)) ->
  (forall x y b, In x l -> In y l -> In b (f x) -> In b (f y) -> x = y) ->
  List.NoDup (flat_map f l).
Proof.
  intros Hl Hf Hd. induction Hl as [|x l Hx Hl IH]; [constructor|].
  cbn [flat_map]. apply ListNoDup_app_intro.
  - apply Hf. now left.
  - apply IH.
    + intros y Hy. apply Hf. now right.
    + intros y z b Hy Hz. apply Hd; now right.
  - intros b Hb Hb'. apply in_flat_map in Hb' as (y & Hy & Hb').
    assert (x = y) as -> by (apply (Hd x y b); auto; [now left | now right]).
    contradiction.
Qed.

Lemma map_flat_map {A B C} (g : B -> C) (f : A -> list B) (l : list A) :
  map g (flat_map f l) = flat_map (fun x => map g (f x)) l.
Proof.
  induction l as [|x l IH]; [reflexivity|].
  cbn [flat_map]. now rewrite map_app, IH.
Qed.

Lemma block_suffixes_NoDup : List.NoDup block_suffixes.
Proof.
  unfold block_suffixes.
  repeat (constructor; [cbn [In]; intuition discriminate|]). constructor.
Qed.

Lemma block_suffix_dot sfx :
  In sfx block_suffixes -> exists t, sfx = "." +:+ t.
Proof.
  unfold block_suffixes. cbn [In].
  intros H. repeat (destruct H as [<-|H]; [eexists; reflexivity|]).
  contradiction.
Qed.

(** The entries of a stage are its stems under the two roots. *)
Lemma stage_entries_stems depths n s :
  stage_entries depths n s
  = map (fun r => ("layers." +:+ r, "stages." +:+ r)) (stage_stems depths n s).
Proof.
  unfold stage_entries, stage_stems, stage_block_entries.
  rewrite map_app, map_flat_map. f_equal.
  - apply flat_map_ext. intros b. unfold layer_mapping, block_suffixes.
    cbn [map]. now rewrite !append_assoc.
  - destruct (_ <? _)%Z; reflexivity.
Qed.

Lemma stage_stem_form depths n s r :
  In r (stage_stems depths n s) -> exists t, r = fmt s +:+ "." +:+ t.
Proof.
  unfold stage_stems. rewrite in_app_iff. intros [H|H].
  - apply in_flat_map in H as (b & _ & H).
    apply in_map_iff in H as (sfx & <- & _). eexists; reflexivity.
  - destruct (_ <? _)%Z; cbn [In] in H; [|contradiction].
    destruct H as [<-|[<-|[]]]; eexists; reflexivity.
Qed.

Lemma stage_stems_NoDup depths n s : List.NoDup (stage_stems depths n s).
Proof.
  unfold stage_stems. apply ListNoDup_app_intro.
  - apply ListNoDup_flat_map.
    + apply seq_NoDup.
    + intros b _. apply ListNoDup_map_inj; [|apply block_suffixes_NoDup].
      intros x y _ _ H. apply append_inj in H.
      change ("." +:+ "blocks" +:+ "." +:+ fmt b +:+ x)
        with (".blocks." +:+ (fmt b +:+ x)) in H.
      change ("." +:+ "blocks" +:+ "." +:+ fmt b +:+ y)
        with (".blocks." +:+ (fmt b +:+ y)) in H.
      now apply append_inj, append_inj in H.
    + intros b b' r _ _ Hr Hr'.
      apply in_map_iff in Hr as (x & <- & Hx).
      apply in_map_iff in Hr' as (y & Hy & Hy').
      apply append_inj in Hy.
      change ("." +:+ "blocks" +:+ "." +:+ fmt b' +:+ y)
        with (".blocks." +:+ (fmt b' +:+ y)) in Hy.
      change ("." +:+ "blocks" +:+ "." +:+ fmt b +:+ x)
        with (".blocks." +:+ (fmt b +:+ x)) in Hy.
      apply append_inj in Hy.
      destruct (block_suffix_dot x Hx) as (t & ->).
      destruct (block_suffix_dot y Hy') as (t' & ->).
      now apply fmt_split in Hy as [-> _].
  - destruct (_ <? _)%Z; [|constructor].
    constructor; [|constructor; [intros []|constructor]].
    cbn [In]. intros [H|[]]. apply append_inj in H. discriminate H.
  - intros r Hr Hr'. apply in_flat_map in Hr as (b & _ & Hr).
    apply in_map_iff in Hr as (x & <- & _).
    destruct (_ <? _)%Z; cbn [In] in Hr'; [|contradiction].
    destruct Hr' as [H|[H|[]]]; apply append_inj in H; discriminate H.
Qed.

Lemma all_stems_NoDup depths n :
  List.NoDup (flat_map (stage_stems depths n) (seq 0 n)).
Proof.
  apply ListNoDup_flat_map.
  - apply seq_NoDup.
  - intros s _. apply stage_stems_NoDup.
  - intros s s' r _ _ Hr Hr'.
    apply stage_stem_form in Hr as (t & ->).
    apply stage_stem_form in Hr' as (t' & Ht).
    now apply fmt_split in Ht as [-> _].
Qed.

(** The paths of the mapping under one root: [first] and [last] are the
    paths of the fixed entries. *)
Lemma rooted_paths_NoDup (root : string) (first last : list string)
    depths n :
  List.NoDup first -> List.NoDup last ->
  (forall x r, In x (first ++ last) -> x <> root +:+ r) ->
  (forall x, In x first -> In x last -> False) ->
  List.NoDup (first
              ++ map (fun r => root +:+ r)
                     (flat_map (stage_stems depths n) (seq 0 n))
              ++ last).
Proof.
  intros Hfirst Hlast Hroot Hdisj.
  apply ListNoDup_app_intro; [exact Hfirst | |].
  - apply ListNoDup_app_intro; [|exact Hlast|].
    + apply ListNoDup_map_inj; [|apply all_stems_NoDup].
      intros x y _ _. apply append_inj.
    + intros x Hx Hx'. apply in_map_iff in Hx as (r & <- & _).
      apply (Hroot (root +:+ r) r); [|reflexivity].
      rewrite in_app_iff. now right.
  - intros x Hx Hx'. rewrite in_app_iff in Hx'. destruct Hx' as [Hx'|Hx'].
    + apply in_map_iff in Hx' as (r & <- & _).
      apply (Hroot (root +:+ r) r); [|reflexivity].
      rewrite in_app_iff. now left.
    + now apply (Hdisj x).
Qed.

(** X14. The mapping is one-to-one: for every list of depths, no source
    path and no destination path occurs in two of its entries. *)
Theorem torch_to_paddle_mapping_one_to_one model_name cfg :
  NoDup (map fst (torch_to_paddle_mapping model_name cfg)) /\
  NoDup (map snd (torch_to_paddle_mapping model_name cfg)).
Proof.
  rewrite torch_to_paddle_mapping_entries.
  set (depths := STAGE_DEPTHS cfg). set (n := length depths).
  rewrite !map_app, !map_flat_map.
  rewrite (flat_map_ext _ (fun s => map (fun r => "layers." +:+ r)
                                        (stage_stems depths n s)))
    by (intros s; rewrite stage_entries_stems, map_map; reflexivity).
  rewrite (flat_map_ext (fun s => map snd _)
             (fun s => map (fun r => "stages." +:+ r)
                           (stage_stems depths n s)))
    by (intros s; rewrite stage_entries_stems, map_map; reflexivity).
  rewrite <- !map_flat_map. cbn [map fst snd].
  split; apply NoDup_ListNoDup; apply rooted_paths_NoDup.
  - repeat (constructor; [cbn [In]; intuition discriminate|]). constructor.
  - repeat (constructor; [cbn [In]; intuition discriminate|]). constructor.
  - cbn [app In]. intros x r [<-|[<-|[<-|[<-|[]]]]]; discriminate.
  - cbn [In]. intros x [<-|[<-|[]]] [H|[H|[]]]; discriminate H.
  - repeat (constructor; [cbn [In]; intuition discriminate|]). constructor.
  - repeat (constructor; [cbn [In]; intuition discriminate|]). constructor.
  - cbn [app In]. intros x r [<-|[<-|[<-|[<-|[]]]]]; discriminate.
  - cbn [In]. intros x [<-|[<-|[]]] [H|[H|[]]]; discriminate H.
Qed.

End MappingInjective.
